(** * Pixabay MCP server: request validation, query normalisation,
      response mapping and error classification.

    The development embeds the TypeScript sources [server/src/index.ts],
    [server/src/pixabay.ts], [server/src/schemas.ts] and
    [server/src/config.ts] and proves the properties the specification
    states about them.

    JavaScript strings are sequences of UTF-16 code units; JavaScript
    values reaching the code are JSON-like trees. Built-ins of the runtime
    that the sources call ([String.prototype.trim], [JSON.parse],
    [encodeURIComponent], ...) are modelled in module [JS] after
    ECMA-262; three library behaviours stay parameters of the
    development (the fields of class [Host]): the WHATWG URL validity
    test zod's [.url()] performs, [Number::toString] on arbitrary
    doubles, and the default issue messages of zod. *)

From Stdlib Require Import Ascii String DecimalString.
From stdpp Require Import base option list numbers strings.

Local Open Scope N_scope.

(** ** The JavaScript runtime *)

Module JS.

(** A string is a list of UTF-16 code units. *)
Abbreviation jsstring := (list N).

(** [js "abc"] is the JavaScript string with the same (ASCII) characters. *)
Definition js (s : string) : jsstring :=
  N_of_ascii <$> list_ascii_of_string s.

(** The double-quote character U+0022. *)
Definition dquote : N := 34.

(** Truthiness of a string: only the empty string is falsy. *)
Definition truthy (s : jsstring) : bool :=
  match s with [] => false | _ :: _ => true end.

(** [String(n)] for a non-negative integer below 2^53 (array lengths,
    HTTP status codes): its decimal digits. *)
Definition decimal (n : nat) : jsstring :=
  js (NilZero.string_of_uint (Nat.to_uint n)).

(** *** [String.prototype.trim] *)

(** WhiteSpace and LineTerminator code points of ECMA-262 (sections
    12.2 and 12.3): TAB, LF, VT, FF, CR, SP, NBSP, ZWNBSP, LS, PS and
    the Unicode category Zs. *)
Definition isWhiteSpace (c : N) : bool :=
  (9 <=? c) && (c <=? 13)
  || (c =? 32) || (c =? 160) || (c =? 5760)
  || (8192 <=? c) && (c <=? 8202)
  || (c =? 8232) || (c =? 8233) || (c =? 8239) || (c =? 8287)
  || (c =? 12288) || (c =? 65279).

Fixpoint trimStart (s : jsstring) : jsstring :=
  match s with
  | [] => []
  | c :: r => if isWhiteSpace c then trimStart r else s
  end.

Fixpoint trimEnd (s : jsstring) : jsstring :=
  match s with
  | [] => []
  | c :: r =>
      match trimEnd r with
      | [] => if isWhiteSpace c then [] else [c]
      | r' => c :: r'
      end
  end.

Definition trim (s : jsstring) : jsstring := trimEnd (trimStart s).

(** *** [String.prototype.startsWith] / [endsWith] on a single character *)

Definition startsWithChar (c : N) (s : jsstring) : bool :=
  match s with x :: _ => x =? c | [] => false end.

Definition endsWithChar (c : N) (s : jsstring) : bool :=
  match last s with Some x => x =? c | None => false end.

(** *** [String.prototype.split] on a single-character separator *)

(** [split sep s] follows [s.split(sep)] when [sep] selects single code
    units (a one-character string, or a character class as in
    [/[-_]/]): the result always has at least one element. *)
Fixpoint split (sep : N → bool) (s : jsstring) : list jsstring :=
  match s with
  | [] => [[]]
  | c :: r =>
      if sep c then [] :: split sep r
      else match split sep r with
           | [] => [[c]]
           | w :: ws => (c :: w) :: ws
           end
  end.

(** [join sep l] is [l.join(sep)]. *)
Fixpoint join (sep : jsstring) (l : list jsstring) : jsstring :=
  match l with
  | [] => []
  | [x] => x
  | x :: r => x ++ sep ++ join sep r
  end.

(** *** Case mapping *)

(** [String.prototype.toLowerCase] follows the Unicode default case
    conversion. The table below covers the code points whose lower-case
    form contains an ASCII letter: A-Z, KELVIN SIGN (U+212A, to [k]) and
    LATIN CAPITAL LETTER I WITH DOT ABOVE (U+0130, to [i] followed by
    U+0307). Every other code unit is kept, so the result agrees with the
    runtime on every comparison against an ASCII string, which is the
    only use the sources make of it. *)
Definition lowerUnit (c : N) : jsstring :=
  if (65 <=? c) && (c <=? 90) then [c + 32]
  else if c =? 8490 then [107]
  else if c =? 304 then [105; 775]
  else [c].

Definition toLowerCase (s : jsstring) : jsstring := s ≫= lowerUnit.

(** Canonicalisation of a code unit for a case-insensitive regular
    expression without the [u] flag (ECMA-262 22.2.2.7.3): the upper-case
    form, except that a non-ASCII unit never folds onto an ASCII one. *)
Definition canonicalize (c : N) : N :=
  if (97 <=? c) && (c <=? 122) then c - 32 else c.

(** [prefixCI p s]: [s] starts with [p] up to [canonicalize]. *)
Fixpoint prefixCI (p s : jsstring) : bool :=
  match p, s with
  | [], _ => true
  | _ :: _, [] => false
  | a :: p', b :: s' => (canonicalize a =? canonicalize b) && prefixCI p' s'
  end.

(** *** Numbers *)

(** A JavaScript number is an IEEE-754 binary64 value. The model keeps
    NaN, the two infinities and, for a finite number, a dyadic
    representation [m * 2^e] of its exact value (negative zero is
    identified with zero; the sources never divide by it). *)
Inductive number : Type :=
| NaN
| Infinity (negative : bool)
| Dyadic (m e : Z).

Definition isNaN (x : number) : bool :=
  match x with NaN => true | _ => false end.

(** [Number.isFinite] *)
Definition Number_isFinite (x : number) : bool :=
  match x with Dyadic _ _ => true | _ => false end.

(** [Number.isInteger] *)
Definition Number_isInteger (x : number) : bool :=
  match x with
  | Dyadic m e => ((0 <=? e) || (m `mod` 2 ^ (- e) =? 0))%Z
  | _ => false
  end.

(** Comparison with an integer constant, [x < k] and [x > k]; both are
    false on NaN. *)
Definition cmpZ (m e k : Z) : comparison :=
  (if 0 <=? e then m * 2 ^ e ?= k else m ?= k * 2 ^ (- e))%Z.

Definition ltZ (x : number) (k : Z) : bool :=
  match x with
  | NaN => false
  | Infinity neg => neg
  | Dyadic m e => match cmpZ m e k with Lt => true | _ => false end
  end.

Definition gtZ (x : number) (k : Z) : bool :=
  match x with
  | NaN => false
  | Infinity neg => negb neg
  | Dyadic m e => match cmpZ m e k with Gt => true | _ => false end
  end.

(** The number with integer value [n] (exact below 2^53, which array
    lengths are). *)
Definition ofNat (n : nat) : number := Dyadic (Z.of_nat n) 0.

(** *** Values *)

(** The values the sources handle are those of JSON documents plus
    [undefined] (the value of a missing property). The type is
    parametric in the representation of numbers: [value number] for
    values at run time, [value jsstring] for the result of [JSON.parse]
    below, which keeps each number as its literal. *)
#[local] Unset Elimination Schemes.
Inductive value (num : Type) : Type :=
| VUndefined
| VNull
| VBool (b : bool)
| VNumber (n : num)
| VString (s : jsstring)
| VArray (xs : list (value num))
| VObject (props : list (jsstring * value num)).
#[local] Set Elimination Schemes.

Arguments VUndefined {num}.
Arguments VNull {num}.
Arguments VBool {num} b.
Arguments VNumber {num} n.
Arguments VString {num} s.
Arguments VArray {num} xs.
Arguments VObject {num} props.

Section Values.
Context {num : Type}.

(** Own property [k] of an object built from a property list written
    in source order: a later binding of the same key overwrites an
    earlier one. *)
Fixpoint findProp (k : jsstring) (props : list (jsstring * value num))
  : option (value num) :=
  match props with
  | [] => None
  | (k', v) :: r =>
      match findProp k r with
      | Some w => Some w
      | None => if decide (k = k') then Some v else None
      end
  end.

(** [v[k]] for a property name [k] that no prototype defines (the
    sources read [hits], [totalHits], [query], the schema keys and two
    metadata keys): [undefined] unless [v] is an object owning [k].
    Reading a property of [null] or [undefined] throws and is handled
    by the callers. *)
Definition getProp (v : value num) (k : jsstring) : value num :=
  match v with
  | VObject props => default VUndefined (findProp k props)
  | _ => VUndefined
  end.

(** [v === null || v === undefined] *)
Definition nullish (v : value num) : bool :=
  match v with VUndefined | VNull => true | _ => false end.

(** [a ?? b] *)
Definition coalesce (a b : value num) : value num :=
  if nullish a then b else a.

(** [typeof v === "string"] *)
Definition isString (v : value num) : bool :=
  match v with VString _ => true | _ => false end.


(** Own enumerable string keys in creation order (first occurrence of
    each key). *)
Fixpoint createdKeys (seen : list jsstring)
    (props : list (jsstring * value num)) : list jsstring :=
  match props with
  | [] => []
  | (k, _) :: r =>
      if decide (k ∈ seen) then createdKeys seen r
      else k :: createdKeys (k :: seen) r
  end.
End Values.

(** Array indices: canonical decimal strings below 2^32 - 1. *)
Definition isDigit (c : N) : bool := (48 <=? c) && (c <=? 57).

Definition digitsValue (s : jsstring) : N :=
  foldl (λ acc c, 10 * acc + (c - 48)) 0 s.

Definition arrayIndex (k : jsstring) : option N :=
  match k with
  | [] => None
  | d :: r =>
      if forallb isDigit k && (negb (d =? 48) || bool_decide (r = []))
         && (length k <=? 10)%nat && (digitsValue k <? 4294967295)
      then Some (digitsValue k) else None
  end.

Fixpoint insertIndex (k : jsstring * N) (l : list (jsstring * N))
  : list (jsstring * N) :=
  match l with
  | [] => [k]
  | x :: r => if k.2 <=? x.2 then k :: l else x :: insertIndex k r
  end.

(** The order in which [for (key in obj)] and [Object.keys] visit the own
    keys of an ordinary object: array indices in ascending order, then
    the other keys in creation order. *)
Definition ownKeys {num} (props : list (jsstring * value num))
  : list jsstring :=
  let ks := createdKeys [] props in
  let idx := omap (λ k, (λ n, (k, n)) <$> arrayIndex k) ks in
  (fst <$> foldr insertIndex [] idx)
  ++ filter (λ k, arrayIndex k = None) ks.

(** *** [encodeURIComponent] *)

Inductive error : Type :=
| TypeError
| URIError
| SyntaxError.

(** Characters [encodeURIComponent] leaves alone: ASCII letters, digits
    and the marks - _ . ! ~ * ' ( ). *)
Definition uriUnreserved (c : N) : bool :=
  (65 <=? c) && (c <=? 90) || (97 <=? c) && (c <=? 122) || isDigit c
  || (c =? 45) || (c =? 95) || (c =? 46) || (c =? 33) || (c =? 126)
  || (c =? 42) || (c =? 39) || (c =? 40) || (c =? 41).

Definition hexDigit (d : N) : N := if d <? 10 then 48 + d else 55 + d.

Definition percent (byte : N) : jsstring :=
  [37; hexDigit (byte / 16); hexDigit (byte mod 16)].

Definition utf8 (cp : N) : list N :=
  if cp <? 128 then [cp]
  else if cp <? 2048 then [192 + cp / 64; 128 + cp mod 64]
  else if cp <? 65536 then
    [224 + cp / 4096; 128 + (cp / 64) mod 64; 128 + cp mod 64]
  else [240 + cp / 262144; 128 + (cp / 4096) mod 64;
        128 + (cp / 64) mod 64; 128 + cp mod 64].

Definition isLeadSurrogate (c : N) : bool := (55296 <=? c) && (c <=? 56319).
Definition isTrailSurrogate (c : N) : bool := (56320 <=? c) && (c <=? 57343).

(** [encodeURIComponent s]: [None] stands for the [URIError] thrown on a
    surrogate code unit that is not part of a pair. *)
Fixpoint encodeURIComponent (s : jsstring) : option jsstring :=
  match s with
  | [] => Some []
  | c :: r =>
      if uriUnreserved c then (c ::.) <$> encodeURIComponent r
      else if isTrailSurrogate c then None
      else if isLeadSurrogate c then
        match r with
        | t :: r' =>
            if isTrailSurrogate t then
              let cp := (c - 55296) * 1024 + (t - 56320) + 65536 in
              ((utf8 cp ≫= percent) ++.) <$> encodeURIComponent r'
            else None
        | [] => None
        end
      else ((utf8 c ≫= percent) ++.) <$> encodeURIComponent r
  end.

(** *** [JSON.parse] *)

(** The JSON grammar of ECMA-404, which [JSON.parse] accepts: a
    recursive-descent parser over code units. Numbers are kept as their
    literal ([value jsstring]); object members are kept in source order,
    see [findProp] for how duplicate keys resolve. *)

Definition isJsonWs (c : N) : bool :=
  (c =? 9) || (c =? 10) || (c =? 13) || (c =? 32).

Fixpoint skipWs (s : jsstring) : jsstring :=
  match s with
  | c :: r => if isJsonWs c then skipWs r else s
  | [] => []
  end.

Fixpoint span (p : N → bool) (s : jsstring) : jsstring * jsstring :=
  match s with
  | c :: r => if p c then let '(a, b) := span p r in (c :: a, b) else ([], s)
  | [] => ([], [])
  end.

Fixpoint stripPrefix (p s : jsstring) : option jsstring :=
  match p, s with
  | [], _ => Some s
  | a :: p', b :: s' => if a =? b then stripPrefix p' s' else None
  | _ :: _, [] => None
  end.

Definition hexValue (c : N) : option N :=
  if isDigit c then Some (c - 48)
  else if (65 <=? c) && (c <=? 70) then Some (c - 55)
  else if (97 <=? c) && (c <=? 102) then Some (c - 87)
  else None.

(** The character an escape letter denotes: quote, backslash, slash,
    b, f, n, r, t. *)
Definition simpleEscape (c : N) : option N :=
  if (c =? 34) || (c =? 92) || (c =? 47) then Some c
  else if c =? 98 then Some 8
  else if c =? 102 then Some 12
  else if c =? 110 then Some 10
  else if c =? 114 then Some 13
  else if c =? 116 then Some 9
  else None.

(** The characters of a string literal after its opening quote, and the
    input after its closing quote. *)
Fixpoint lexString (s : jsstring) : option (jsstring * jsstring) :=
  match s with
  | [] => None
  | c :: r =>
      if c =? 34 then Some ([], r)
      else if c =? 92 then
        match r with
        | [] => None
        | e :: r1 =>
            if e =? 117 then
              match r1 with
              | h1 :: h2 :: h3 :: h4 :: r2 =>
                  a ← hexValue h1; b ← hexValue h2;
                  c ← hexValue h3; d ← hexValue h4;
                  '(str, rest) ← lexString r2;
                  Some ((((a * 16 + b) * 16 + c) * 16 + d) :: str, rest)
              | _ => None
              end
            else
              u ← simpleEscape e;
              '(str, rest) ← lexString r1;
              Some (u :: str, rest)
        end
      else if c <? 32 then None
      else '(str, rest) ← lexString r; Some (c :: str, rest)
  end.

(** A number literal: optional minus, integer part without leading
    zeros, optional fraction, optional exponent. Each lexer returns the
    characters it read and the rest of the input. *)
Definition lexSign (s : jsstring) : jsstring * jsstring :=
  match s with
  | c :: r => if c =? 45 then ([c], r) else ([], s)
  | [] => ([], s)
  end.

Definition lexInt (s : jsstring) : option (jsstring * jsstring) :=
  match s with
  | d :: r =>
      if d =? 48 then Some ([d], r)
      else if isDigit d then
        let '(ds, r') := span isDigit r in Some (d :: ds, r')
      else None
  | [] => None
  end.

Definition lexFrac (s : jsstring) : option (jsstring * jsstring) :=
  match s with
  | c :: r =>
      if c =? 46 then
        let '(ds, r') := span isDigit r in
        if truthy ds then Some (c :: ds, r') else None
      else Some ([], s)
  | [] => Some ([], s)
  end.

Definition lexExpSign (s : jsstring) : jsstring * jsstring :=
  match s with
  | g :: r => if (g =? 43) || (g =? 45) then ([g], r) else ([], s)
  | [] => ([], s)
  end.

Definition lexExp (s : jsstring) : option (jsstring * jsstring) :=
  match s with
  | c :: r =>
      if (c =? 101) || (c =? 69) then
        let '(sg, r1) := lexExpSign r in
        let '(ds, r') := span isDigit r1 in
        if truthy ds then Some (c :: sg ++ ds, r') else None
      else Some ([], s)
  | [] => Some ([], s)
  end.

Definition lexNumber (s : jsstring) : option (jsstring * jsstring) :=
  let '(sign, s1) := lexSign s in
  '(int, s2) ← lexInt s1;
  '(frac, s3) ← lexFrac s2;
  '(exp, s4) ← lexExp s3;
  Some (sign ++ int ++ frac ++ exp, s4).

Inductive parsing (A : Type) : Type :=
| Parsed (a : A) (rest : jsstring)
| Malformed
| OutOfFuel.

Arguments Parsed {A} a rest.
Arguments Malformed {A}.
Arguments OutOfFuel {A}.

Definition parsingMap {A B} (f : A → B) (p : parsing A) : parsing B :=
  match p with
  | Parsed a r => Parsed (f a) r
  | Malformed => Malformed
  | OutOfFuel => OutOfFuel
  end.

Definition ofLex {A} (f : jsstring → A) (l : option (jsstring * jsstring))
  : parsing A :=
  match l with Some (x, r) => Parsed (f x) r | None => Malformed end.

(** [parseValue] reads one value, [parseElements] the elements of an
    array after its opening bracket (at least one), [parseMembers] the
    members of an object after its opening brace (at least one). *)
Fixpoint parseValue (fuel : nat) (s : jsstring) : parsing (value jsstring) :=
  match fuel with
  | O => OutOfFuel
  | S fuel =>
      match skipWs s with
      | [] => Malformed
      | c :: r =>
          if c =? 123 then
            match skipWs r with
            | [] => Malformed
            | c' :: r' =>
                if c' =? 125 then Parsed (VObject []) r'
                else parsingMap VObject (parseMembers fuel (c' :: r'))
            end
          else if c =? 91 then
            match skipWs r with
            | [] => Malformed
            | c' :: r' =>
                if c' =? 93 then Parsed (VArray []) r'
                else parsingMap VArray (parseElements fuel (c' :: r'))
            end
          else if c =? 34 then ofLex VString (lexString r)
          else if c =? 116 then
            ofLex (λ _, VBool true) (pair [] <$> stripPrefix [114; 117; 101] r)
          else if c =? 102 then
            ofLex (λ _, VBool false)
                  (pair [] <$> stripPrefix [97; 108; 115; 101] r)
          else if c =? 110 then
            ofLex (λ _, VNull) (pair [] <$> stripPrefix [117; 108; 108] r)
          else ofLex VNumber (lexNumber (c :: r))
      end
  end
with parseElements (fuel : nat) (s : jsstring)
  : parsing (list (value jsstring)) :=
  match fuel with
  | O => OutOfFuel
  | S fuel =>
      match parseValue fuel s with
      | Parsed v r =>
          match skipWs r with
          | [] => Malformed
          | c :: r' =>
              if c =? 44 then parsingMap (v ::.) (parseElements fuel r')
              else if c =? 93 then Parsed [v] r'
              else Malformed
          end
      | Malformed => Malformed
      | OutOfFuel => OutOfFuel
      end
  end
with parseMembers (fuel : nat) (s : jsstring)
  : parsing (list (jsstring * value jsstring)) :=
  match fuel with
  | O => OutOfFuel
  | S fuel =>
      match skipWs s with
      | [] => Malformed
      | q :: r =>
          if q =? 34 then
            match lexString r with
            | None => Malformed
            | Some (k, r1) =>
                match skipWs r1 with
                | [] => Malformed
                | c1 :: r2 =>
                    if c1 =? 58 then
                      match parseValue fuel r2 with
                      | Parsed v r3 =>
                          match skipWs r3 with
                          | [] => Malformed
                          | c3 :: r4 =>
                              if c3 =? 44 then
                                parsingMap ((k, v) ::.) (parseMembers fuel r4)
                              else if c3 =? 125 then Parsed [(k, v)] r4
                              else Malformed
                          end
                      | Malformed => Malformed
                      | OutOfFuel => OutOfFuel
                      end
                    else Malformed
                end
            end
          else Malformed
      end
  end.

(** Fuel that [parseValue] never exhausts on [s]
    (see [parseValue_fuel]). *)
Definition fuelFor (s : jsstring) : nat := 2 * length s + 1.

(** [JSON.parse(s)]: the value of the whole text, [None] when the
    runtime throws a [SyntaxError]. *)
Definition JSON_parse (s : jsstring) : option (value jsstring) :=
  match parseValue (fuelFor s) s with
  | Parsed v r => match skipWs r with [] => Some v | _ :: _ => None end
  | _ => None
  end.

End JS.

Import JS.


(** ** zod issues *)

(** The name zod gives to the type of a value ([getParsedType]). *)
Definition parsedType (v : value number) : jsstring :=
  match v with
  | VUndefined => js "undefined"
  | VNull => js "null"
  | VBool _ => js "boolean"
  | VNumber n => if isNaN n then js "nan" else js "number"
  | VString _ => js "string"
  | VArray _ => js "array"
  | VObject _ => js "object"
  end.

(** The issue kinds the schemas of this repository can raise, with the
    data zod attaches to them. *)
Inductive IssueCode : Type :=
| invalid_type (expected received : jsstring)
| invalid_enum_value (options : list jsstring) (received : jsstring)
| unrecognized_keys (keys : list jsstring)
| too_small (minimum : Z)
| too_big (maximum : Z).

(** An issue: its kind, the path of the offending field, and the message
    the schema gives for it, if it gives one. *)
Record ZodIssue : Type := {
  code : IssueCode;
  path : list jsstring;
  custom : option jsstring;
}.

(** ** The host: library behaviour the development is parametric in *)

Class Host : Type := {
  (** zod's [.url()] check: [new URL(s)] does not throw. *)
  isUrl : jsstring → bool;
  (** [Number::toString], as applied by a template literal. *)
  numberToString : number → jsstring;
  (** The message of zod's default error map for an issue that carries
      none of its own. *)
  zodDefaultMessage : IssueCode → jsstring;
}.

(** [issue.message] *)
Definition issueMessage `{Host} (i : ZodIssue) : jsstring :=
  default (zodDefaultMessage (code i)) (custom i).

(** ** Errors and completions *)

(** [ErrorCode] of the MCP SDK, as far as the sources use it. *)
Inductive ErrorCode : Type :=
| InvalidParams
| InternalError.

(** [new McpError(code, message)], by its constructor arguments. *)
Record McpError : Type := {
  errorCode : ErrorCode;
  message : jsstring;
}.

(** What a call can throw: an [McpError] of the sources, or an error of
    the runtime. *)
Inductive thrown : Type :=
| Mcp (e : McpError)
| Native (e : error).

(** The completion of a call: it returns or it throws. *)
Inductive completion (A : Type) : Type :=
| Return (a : A)
| Throw (e : thrown).

Arguments Return {A} a.
Arguments Throw {A} e.

#[global] Instance completion_ret : MRet completion := λ A, Return.
#[global] Instance completion_bind : MBind completion := λ A B f m,
  match m with Return a => f a | Throw e => Throw e end.
#[global] Instance completion_fmap : FMap completion := λ A B f m,
  match m with Return a => Return (f a) | Throw e => Throw e end.

(** ** config.ts *)

Module serverConfig.
Definition defaultLocale : jsstring := js "en".
Definition defaultPerPage : nat := 6.
Definition maxPerPage : nat := 20.
End serverConfig.

(** ** schemas.ts *)

(** The validators follow zod 3, on which the MCP SDK of the sources
    builds: a string schema runs its checks in the order they were
    chained, an object schema validates the fields in the order of its
    shape, and a parse succeeds when it raised no issue. *)

Inductive Orientation : Type :=
| all
| horizontal
| vertical.

Definition orientationValues : list (jsstring * Orientation) :=
  [(js "all", all); (js "horizontal", horizontal); (js "vertical", vertical)].

(** [SearchImagesInput = z.infer<typeof searchImagesInputSchema>] *)
Record SearchImagesInput : Type := {
  query : jsstring;
  orientation : option Orientation;
  safesearch : option bool;
  per_page : option number;
}.

(** The outcome of validating one field: the issues it adds to the
    context, and its parsed value when the field is not aborted. *)
Definition checked (A : Type) : Type := (list ZodIssue * option A)%type.

Definition failType {A} (key expected : jsstring) (v : value number)
  : checked A :=
  ([{| code := invalid_type expected (parsedType v);
       path := [key]; custom := None |}], None).

Definition when (b : bool) (i : ZodIssue) : list ZodIssue :=
  if b then [i] else [].

(** [query: z.string().trim().min(1, ...).max(100, ...)]: the checks run
    in order on the trimmed string and none of them aborts. *)
Definition querySchema (v : value number) : checked jsstring :=
  match v with
  | VString s =>
      let data := trim s in
      (when (length data <? 1)%nat
            {| code := too_small 1; path := [js "query"];
               custom := Some (js "Please provide a search query.") |}
       ++ when (100 <? length data)%nat
            {| code := too_big 100; path := [js "query"];
               custom := Some (js "Queries must be 100 characters or fewer.") |},
       Some data)
  | _ => failType (js "query") (js "string") v
  end.

Definition lookupEnum (s : jsstring) : option Orientation :=
  (λ r, r.2.2) <$> list_find (λ p, p.1 = s) orientationValues.

(** [orientation: z.enum(orientationValues).optional()] *)
Definition orientationSchema (v : value number)
  : checked (option Orientation) :=
  match v with
  | VUndefined => ([], Some None)
  | VString s =>
      match lookupEnum s with
      | Some o => ([], Some (Some o))
      | None =>
          ([{| code := invalid_enum_value (fst <$> orientationValues) s;
               path := [js "orientation"]; custom := None |}], None)
      end
  | _ =>
      failType (js "orientation")
               (js "'all' | 'horizontal' | 'vertical'") v
  end.

(** [safesearch: z.boolean().optional()] *)
Definition safesearchSchema (v : value number) : checked (option bool) :=
  match v with
  | VUndefined => ([], Some None)
  | VBool b => ([], Some (Some b))
  | _ => failType (js "safesearch") (js "boolean") v
  end.

(** [per_page: z.number().int().min(3, ...).max(serverConfig.maxPerPage,
    ...).optional()]: a NaN is not of type number; the three checks all
    run. *)
Definition per_pageSchema (v : value number) : checked (option number) :=
  match v with
  | VUndefined => ([], Some None)
  | VNumber n =>
      if isNaN n then failType (js "per_page") (js "number") v
      else
        (when (negb (Number_isInteger n))
              {| code := invalid_type (js "integer") (js "float");
                 path := [js "per_page"]; custom := None |}
         ++ when (ltZ n 3)
              {| code := too_small 3; path := [js "per_page"];
                 custom := Some (js "per_page must be between 3 and 20.") |}
         ++ when (gtZ n (Z.of_nat serverConfig.maxPerPage))
              {| code := too_big (Z.of_nat serverConfig.maxPerPage);
                 path := [js "per_page"];
                 custom := Some (js "per_page must be between 3 and "
                                 ++ decimal serverConfig.maxPerPage
                                 ++ js ".") |},
         Some (Some n))
  | _ => failType (js "per_page") (js "number") v
  end.

Definition shapeKeys : list jsstring :=
  [js "query"; js "orientation"; js "safesearch"; js "per_page"].

(** [searchImagesInputSchema.safeParse(raw)]: the fields are validated
    in the order of the shape, then [.strict()] reports the keys outside
    the shape in one issue; the parse succeeds when no issue was raised. *)
Definition searchImagesInputSchema (raw : value number)
  : list ZodIssue + SearchImagesInput :=
  match raw with
  | VObject props =>
      let q := querySchema (getProp raw (js "query")) in
      let o := orientationSchema (getProp raw (js "orientation")) in
      let s := safesearchSchema (getProp raw (js "safesearch")) in
      let p := per_pageSchema (getProp raw (js "per_page")) in
      let extraKeys := filter (λ k, k ∉ shapeKeys) (ownKeys props) in
      let strict :=
        when (negb (bool_decide (extraKeys = [])))
             {| code := unrecognized_keys extraKeys; path := [];
                custom := None |} in
      match q.1 ++ o.1 ++ s.1 ++ p.1 ++ strict, q.2, o.2, s.2, p.2 with
      | [], Some q, Some o, Some s, Some p =>
          inr {| query := q; orientation := o; safesearch := s;
                 per_page := p |}
      | issues, _, _, _, _ => inl issues
      end
  | _ =>
      inl [{| code := invalid_type (js "object") (parsedType raw);
              path := []; custom := None |}]
  end.

(** *** Upstream records *)

(** For the hit schemas only [parsed.success] and [parsed.data] are
    used, so their validators return the data or nothing. *)

(** [z.number()]: of type number and not NaN. *)
Definition z_number (v : value number) : option number :=
  match v with
  | VNumber n => if isNaN n then None else Some n
  | _ => None
  end.

(** [z.string()] *)
Definition z_string (v : value number) : option jsstring :=
  match v with VString s => Some s | _ => None end.

(** [z.string().url()] *)
Definition z_url `{Host} (v : value number) : option jsstring :=
  s ← z_string v; if isUrl s then Some s else None.

(** [.optional()]: [undefined] is accepted as it is. *)
Definition z_optional {A} (schema : value number → option A)
    (v : value number) : option (option A) :=
  match v with
  | VUndefined => Some None
  | _ => Some <$> schema v
  end.

(** [urlOrEmpty]: [z.string().url()], or else the literal empty
    string. *)
Definition urlOrEmpty `{Host} (v : value number) : option jsstring :=
  match z_url v with
  | Some s => Some s
  | None => match v with VString [] => Some [] | _ => None end
  end.

(** The [userImageURL] field: a union of [z.string().url()], the
    literal empty string and [z.null()], optional and nullable. The
    accepted value is kept as it came. *)
Definition userImageURLSchema `{Host} (v : value number)
  : option (value number) :=
  match v with
  | VUndefined | VNull => Some v
  | _ => VString <$> urlOrEmpty v
  end.

(** [PixabayImageHit = z.infer<typeof pixabayImageHitSchema>] *)
Module ImageHit.
Record PixabayImageHit : Type := {
  id : number;
  pageURL : jsstring;
  previewURL : jsstring;
  webformatURL : jsstring;
  imageWidth : number;
  imageHeight : number;
  tags : jsstring;
  user : jsstring;
  user_id : number;
  userImageURL : value number;
  likes : number;
  downloads : number;
}.
End ImageHit.
Export ImageHit (PixabayImageHit).

(** [pixabayImageHitSchema.safeParse(rawHit)]; unknown keys are
    stripped. *)
Definition pixabayImageHitSchema `{Host} (rawHit : value number)
  : option PixabayImageHit :=
  match rawHit with
  | VObject _ =>
      id ← z_number (getProp rawHit (js "id"));
      pageURL ← z_url (getProp rawHit (js "pageURL"));
      previewURL ← z_url (getProp rawHit (js "previewURL"));
      webformatURL ← z_url (getProp rawHit (js "webformatURL"));
      imageWidth ← z_number (getProp rawHit (js "imageWidth"));
      imageHeight ← z_number (getProp rawHit (js "imageHeight"));
      tags ← z_string (getProp rawHit (js "tags"));
      user ← z_string (getProp rawHit (js "user"));
      user_id ← z_number (getProp rawHit (js "user_id"));
      userImageURL ← userImageURLSchema (getProp rawHit (js "userImageURL"));
      likes ← z_number (getProp rawHit (js "likes"));
      downloads ← z_number (getProp rawHit (js "downloads"));
      Some {| ImageHit.id := id; ImageHit.pageURL := pageURL;
              ImageHit.previewURL := previewURL;
              ImageHit.webformatURL := webformatURL;
              ImageHit.imageWidth := imageWidth;
              ImageHit.imageHeight := imageHeight;
              ImageHit.tags := tags; ImageHit.user := user;
              ImageHit.user_id := user_id;
              ImageHit.userImageURL := userImageURL;
              ImageHit.likes := likes; ImageHit.downloads := downloads |}
  | _ => None
  end.

(** One rendition of a video ([pixabayVideoRenditionSchema]). *)
Record Rendition : Type := {
  url : jsstring;
  width : number;
  height : number;
  size : option number;
  thumbnail : option jsstring;
}.

Definition pixabayVideoRenditionSchema `{Host} (v : value number)
  : option Rendition :=
  match v with
  | VObject _ =>
      url ← urlOrEmpty (getProp v (js "url"));
      width ← z_number (getProp v (js "width"));
      height ← z_number (getProp v (js "height"));
      size ← z_optional z_number (getProp v (js "size"));
      thumbnail ← z_optional urlOrEmpty (getProp v (js "thumbnail"));
      Some {| url := url; width := width; height := height;
              size := size; thumbnail := thumbnail |}
  | _ => None
  end.

(** [keyof PixabayVideoHit["videos"]] *)
Inductive RenditionKey : Type :=
| large
| medium
| small
| tiny.

(** [PixabayVideoHit["videos"]] *)
Module Videos.
Record Videos : Type := {
  large : option Rendition;
  medium : option Rendition;
  small : option Rendition;
  tiny : option Rendition;
}.
End Videos.
Export Videos (Videos).

(** [videos[key]] *)
Definition rendition (videos : Videos) (key : RenditionKey)
  : option Rendition :=
  match key with
  | large => Videos.large videos
  | medium => Videos.medium videos
  | small => Videos.small videos
  | tiny => Videos.tiny videos
  end.

Definition videoKeys : list jsstring :=
  [js "large"; js "medium"; js "small"; js "tiny"].

(** The [videos] field: a [.strict()] object of optional renditions. *)
Definition videosSchema `{Host} (v : value number) : option Videos :=
  match v with
  | VObject props =>
      large ← z_optional pixabayVideoRenditionSchema (getProp v (js "large"));
      medium ← z_optional pixabayVideoRenditionSchema (getProp v (js "medium"));
      small ← z_optional pixabayVideoRenditionSchema (getProp v (js "small"));
      tiny ← z_optional pixabayVideoRenditionSchema (getProp v (js "tiny"));
      if bool_decide (filter (λ k, k ∉ videoKeys) (ownKeys props) = [])
      then Some {| Videos.large := large; Videos.medium := medium;
                   Videos.small := small; Videos.tiny := tiny |}
      else None
  | _ => None
  end.

(** [PixabayVideoHit = z.infer<typeof pixabayVideoHitSchema>] *)
Module VideoHit.
Record PixabayVideoHit : Type := {
  id : number;
  pageURL : jsstring;
  tags : jsstring;
  duration : number;
  type : jsstring;
  videos : Videos;
  user : jsstring;
  user_id : number;
  userImageURL : value number;
  views : option number;
  downloads : option number;
  likes : option number;
}.
End VideoHit.
Export VideoHit (PixabayVideoHit).

(** [z.number().int().nonnegative()] *)
Definition z_duration (v : value number) : option number :=
  n ← z_number v;
  if Number_isInteger n && negb (ltZ n 0) then Some n else None.

Definition pixabayVideoHitSchema `{Host} (rawHit : value number)
  : option PixabayVideoHit :=
  match rawHit with
  | VObject _ =>
      id ← z_number (getProp rawHit (js "id"));
      pageURL ← z_url (getProp rawHit (js "pageURL"));
      tags ← z_string (getProp rawHit (js "tags"));
      duration ← z_duration (getProp rawHit (js "duration"));
      type ← z_string (getProp rawHit (js "type"));
      videos ← videosSchema (getProp rawHit (js "videos"));
      user ← z_string (getProp rawHit (js "user"));
      user_id ← z_number (getProp rawHit (js "user_id"));
      userImageURL ← userImageURLSchema (getProp rawHit (js "userImageURL"));
      views ← z_optional z_number (getProp rawHit (js "views"));
      downloads ← z_optional z_number (getProp rawHit (js "downloads"));
      likes ← z_optional z_number (getProp rawHit (js "likes"));
      Some {| VideoHit.id := id; VideoHit.pageURL := pageURL;
              VideoHit.tags := tags; VideoHit.duration := duration;
              VideoHit.type := type; VideoHit.videos := videos;
              VideoHit.user := user; VideoHit.user_id := user_id;
              VideoHit.userImageURL := userImageURL;
              VideoHit.views := views; VideoHit.downloads := downloads;
              VideoHit.likes := likes |}
  | _ => None
  end.

(** The [photographer] of an image, the [creator] of a video. *)
Record Contributor : Type := {
  name : jsstring;
  profileUrl : jsstring;
}.

Module Image.
Record ImageResult : Type := {
  id : number;
  previewUrl : jsstring;
  pageUrl : jsstring;
  imageUrl : jsstring;
  imageWidth : number;
  imageHeight : number;
  tags : list jsstring;
  photographer : Contributor;
  likes : number;
  downloads : number;
}.
End Image.
Export Image (ImageResult).

Module Video.
Record VideoResult : Type := {
  id : number;
  pageUrl : jsstring;
  videoUrl : jsstring;
  previewImageUrl : option jsstring;
  width : option number;
  height : option number;
  durationSeconds : number;
  tags : list jsstring;
  creator : Contributor;
  likes : option number;
  downloads : option number;
}.
End Video.
Export Video (VideoResult).

Module Content.
Record ImageSearchStructuredContent : Type := {
  query : jsstring;
  resultCount : nat;
  results : list ImageResult;
  attribution : jsstring;
}.
End Content.
Export Content (ImageSearchStructuredContent).

(** ** pixabay.ts *)

(** [RateLimitInfo]: the three rate-limit headers as numbers, when they
    are present and numeric. [extractRateLimit] itself (it relies on
    [Number()]) is outside the model: a response carries the triple. *)
Record RateLimitInfo : Type := {
  limit : option number;
  remaining : option number;
  resetSeconds : option number;
}.

(** [SearchImagesParams = SearchImagesInput & { locale: string }] *)
Record SearchImagesParams : Type := {
  input : SearchImagesInput;
  locale : jsstring;
}.

Module ImageSearch.
Record PixabayImageSearchResult : Type := {
  results : list ImageResult;
  totalHits : value number;
  rateLimit : RateLimitInfo;
}.
End ImageSearch.
Export ImageSearch (PixabayImageSearchResult).

Module VideoSearch.
Record PixabayVideoSearchResult : Type := {
  results : list VideoResult;
  totalHits : value number;
  rateLimit : RateLimitInfo;
}.
End VideoSearch.
Export VideoSearch (PixabayVideoSearchResult).

(** What the sources observe of a fetch [Response]: the status, the
    status text, the body as text ([None]: reading it fails), the body
    as JSON ([None]: [response.json()] rejects) and the rate-limit
    headers. *)
Record Response : Type := {
  status : nat;
  statusText : jsstring;
  text : option jsstring;
  json : option (value number);
  rateLimitHeaders : RateLimitInfo;
}.

(** [response.ok] *)
Definition ok (response : Response) : bool :=
  (200 <=? status response)%nat && (status response <=? 299)%nat.

Definition SUPPORTED_LANGS : list jsstring :=
  js <$> ["cs"; "da"; "de"; "en"; "es"; "fr"; "id"; "it"; "hu"; "nl";
          "no"; "pl"; "pt"; "ro"; "sk"; "fi"; "sv"; "tr"; "vi"; "th";
          "bg"; "ru"; "el"; "ja"; "ko"; "zh"]%string.

Definition VIDEO_RENDITION_ORDER : list RenditionKey :=
  [medium; large; small; tiny].

Definition THUMBNAIL_RENDITION_ORDER : list RenditionKey :=
  [medium; small; large; tiny].

(** [/^https?:\/\//i.test(s)] *)
Definition hasHttpScheme (s : jsstring) : bool :=
  prefixCI (js "http://") s || prefixCI (js "https://") s.

(** A [string | undefined | null] argument is [None] when it is
    [undefined] or [null]. *)
Definition sanitizeUrl (value : option jsstring) : option jsstring :=
  match value with
  | None => None
  | Some value =>
      if negb (truthy value) then None
      else
        let trimmed := trim value in
        if negb (truthy trimmed) then None
        else if negb (hasHttpScheme trimmed) then None
        else Some trimmed
  end.

(** Truthiness of a [string | null] result. *)
Definition nonEmpty (x : option jsstring) : bool :=
  match x with Some s => truthy s | None => false end.

(** The loop of [pickVideoRendition] over the keys still to try. *)
Fixpoint pickVideoRenditionFrom (keys : list RenditionKey)
    (hit : PixabayVideoHit) : option Rendition :=
  match keys with
  | [] => None
  | key :: keys =>
      match rendition (VideoHit.videos hit) key with
      | None => pickVideoRenditionFrom keys hit
      | Some rendition =>
          if nonEmpty (sanitizeUrl (Some (url rendition)))
          then Some rendition
          else pickVideoRenditionFrom keys hit
      end
  end.

Definition pickVideoRendition (hit : PixabayVideoHit) : option Rendition :=
  pickVideoRenditionFrom VIDEO_RENDITION_ORDER hit.

(** The loop of [findThumbnail] over the keys still to try. *)
Fixpoint findThumbnailFrom (keys : list RenditionKey)
    (hit : PixabayVideoHit) : option jsstring :=
  match keys with
  | [] => None
  | key :: keys =>
      match rendition (VideoHit.videos hit) key with
      | None => findThumbnailFrom keys hit
      | Some rendition =>
          let thumbnail := sanitizeUrl (thumbnail rendition) in
          if nonEmpty thumbnail then thumbnail
          else findThumbnailFrom keys hit
      end
  end.

Definition findThumbnail (hit : PixabayVideoHit)
    (preferred : option jsstring) : option jsstring :=
  let preferredUrl := sanitizeUrl preferred in
  if nonEmpty preferredUrl then preferredUrl
  else findThumbnailFrom THUMBNAIL_RENDITION_ORDER hit.

Definition resolveLanguage (locale : option jsstring) : jsstring :=
  match locale with
  | None => serverConfig.defaultLocale
  | Some locale =>
      if negb (truthy locale) then serverConfig.defaultLocale
      else
        let candidate :=
          toLowerCase <$> head (split (λ c, (c =? 45) || (c =? 95)) locale) in
        match candidate with
        | Some candidate =>
            if truthy candidate && bool_decide (candidate ∈ SUPPORTED_LANGS)
            then candidate
            else serverConfig.defaultLocale
        | None => serverConfig.defaultLocale
        end
  end.

Definition normalizeTags (tags : jsstring) : list jsstring :=
  filter (λ tag, (0 < length tag)%nat) (trim <$> split (λ c, c =? 44) tags).

(** The template literal evaluates [encodeURIComponent(username)]
    first, which throws a [URIError] on a malformed string. *)
Definition buildContributorProfile `{Host} (username : jsstring)
    (userId : number) : completion jsstring :=
  match encodeURIComponent username with
  | Some encoded =>
      Return (js "https://pixabay.com/users/" ++ encoded ++ js "-"
              ++ numberToString userId ++ js "/")
  | None => Throw (Native URIError)
  end.

Definition safeReadError (response : Response) : jsstring :=
  match text response with
  | Some text =>
      if truthy (trim text) then trim text else statusText response
  | None => statusText response
  end.

(** [throwForErrorResponse] always throws; the model returns the error
    it throws. *)
Definition throwForErrorResponse (response : Response) : McpError :=
  let message := safeReadError response in
  if bool_decide (status response = 401%nat)
     || bool_decide (status response = 403%nat)
  then {| errorCode := InternalError;
          message := js "Pixabay authentication failed. Verify PIXABAY_API_KEY." |}
  else if bool_decide (status response = 429%nat)
  then {| errorCode := InternalError;
          message := js "Pixabay rate limit exceeded. Please wait a moment before trying again." |}
  else {| errorCode := InternalError;
          message := js "Pixabay request failed (" ++ decimal (status response)
                     ++ js "): " ++ message |}.

(** [json.hits]: reading a property of [null] or [undefined] throws a
    [TypeError]. *)
Definition readProp (v : value number) (k : jsstring)
  : completion (value number) :=
  if nullish v then Throw (Native TypeError) else Return (getProp v k).

(** [Array.isArray(json.hits) ? json.hits : []] *)
Definition hitsOf (hits : value number) : list (value number) :=
  match hits with VArray hits => hits | _ => [] end.

(** The validation loop shared by both searches: the hits that parse
    are pushed onto [parsedHits] in order. *)
Definition parseHits {A} (schema : value number → option A)
    (hits : list (value number)) : list A :=
  foldl (λ parsedHits rawHit,
           match schema rawHit with
           | Some data => parsedHits ++ [data]
           | None => parsedHits
           end) [] hits.

(** The callback of [parsedHits.map] in [searchImages]. *)
Definition toImageResult `{Host} (hit : PixabayImageHit)
  : completion ImageResult :=
  profileUrl ← buildContributorProfile (ImageHit.user hit) (ImageHit.user_id hit);
  mret {| Image.id := ImageHit.id hit;
          Image.previewUrl := ImageHit.previewURL hit;
          Image.pageUrl := ImageHit.pageURL hit;
          Image.imageUrl := ImageHit.webformatURL hit;
          Image.imageWidth := ImageHit.imageWidth hit;
          Image.imageHeight := ImageHit.imageHeight hit;
          Image.tags := normalizeTags (ImageHit.tags hit);
          Image.photographer :=
            {| name := ImageHit.user hit; profileUrl := profileUrl |};
          Image.likes := ImageHit.likes hit;
          Image.downloads := ImageHit.downloads hit |}.

(** [searchImages] from the point where the response has arrived. *)
Definition searchImages `{Host} (response : Response)
  : completion PixabayImageSearchResult :=
  let rateLimit := rateLimitHeaders response in
  if negb (ok response) then Throw (Mcp (throwForErrorResponse response))
  else
    match json response with
    | None => Throw (Native SyntaxError)
    | Some json =>
        hits ← hitsOf <$> readProp json (js "hits");
        let parsedHits := parseHits pixabayImageHitSchema hits in
        results ← mapM toImageResult parsedHits;
        totalHits ← readProp json (js "totalHits");
        mret {| ImageSearch.results := results;
                ImageSearch.totalHits :=
                  coalesce totalHits (VNumber (ofNat (length results)));
                ImageSearch.rateLimit := rateLimit |}
    end.

(** The body of the loop of [searchVideos] for one hit: [None] when the
    loop continues without pushing a result. *)
Definition toVideoResult `{Host} (hit : PixabayVideoHit)
  : completion (option VideoResult) :=
  match pickVideoRendition hit with
  | None => mret None
  | Some rendition =>
      match sanitizeUrl (Some (url rendition)) with
      | Some videoUrl =>
          if truthy videoUrl then
            let previewImageUrl := findThumbnail hit (thumbnail rendition) in
            profileUrl ←
              buildContributorProfile (VideoHit.user hit) (VideoHit.user_id hit);
            mret (Some
              {| Video.id := VideoHit.id hit;
                 Video.pageUrl := VideoHit.pageURL hit;
                 Video.videoUrl := videoUrl;
                 Video.previewImageUrl := previewImageUrl;
                 Video.width :=
                   if Number_isFinite (width rendition)
                   then Some (width rendition) else None;
                 Video.height :=
                   if Number_isFinite (height rendition)
                   then Some (height rendition) else None;
                 Video.durationSeconds := VideoHit.duration hit;
                 Video.tags := normalizeTags (VideoHit.tags hit);
                 Video.creator :=
                   {| name := VideoHit.user hit; profileUrl := profileUrl |};
                 Video.likes := VideoHit.likes hit;
                 Video.downloads := VideoHit.downloads hit |})
          else mret None
      | None => mret None
      end
  end.

(** The loop of [searchVideos] over [parsedHits], pushing onto
    [results]. *)
Fixpoint videoResults `{Host} (parsedHits : list PixabayVideoHit)
    (results : list VideoResult) : completion (list VideoResult) :=
  match parsedHits with
  | [] => mret results
  | hit :: parsedHits =>
      result ← toVideoResult hit;
      match result with
      | Some result => videoResults parsedHits (results ++ [result])
      | None => videoResults parsedHits results
      end
  end.

(** [searchVideos] from the point where the response has arrived. *)
Definition searchVideos `{Host} (response : Response)
  : completion PixabayVideoSearchResult :=
  let rateLimit := rateLimitHeaders response in
  if negb (ok response) then Throw (Mcp (throwForErrorResponse response))
  else
    match json response with
    | None => Throw (Native SyntaxError)
    | Some json =>
        hits ← hitsOf <$> readProp json (js "hits");
        let parsedHits := parseHits pixabayVideoHitSchema hits in
        results ← videoResults parsedHits [];
        totalHits ← readProp json (js "totalHits");
        mret {| VideoSearch.results := results;
                VideoSearch.totalHits :=
                  coalesce totalHits (VNumber (ofNat (length results)));
                VideoSearch.rateLimit := rateLimit |}
    end.

(** ** index.ts (image search tool) *)

(** [trimmed.startsWith("{") && trimmed.endsWith("}") ||
    trimmed.startsWith("[") && trimmed.endsWith("]")] *)
Definition bracketed (trimmed : jsstring) : bool :=
  startsWithChar 123 trimmed && endsWithChar 125 trimmed
  || startsWithChar 91 trimmed && endsWithChar 93 trimmed.

(** The statements inside the [try] block of [normalizeQuery]: the
    value they return, or [None] when control reaches the end of the
    block. [parsed && typeof parsed === "object"] holds of arrays and
    objects ([null] is falsy). *)
Definition recoverQuery (query : jsstring) (parsed : value jsstring)
  : option jsstring :=
  match parsed with
  | VString parsed =>
      Some (if truthy (trim parsed) then trim parsed else query)
  | VArray _ | VObject _ =>
      match getProp parsed (js "query") with
      | VString nestedQuery =>
          if (0 <? length (trim nestedQuery))%nat
          then Some (trim nestedQuery) else None
      | _ => None
      end
  | _ => None
  end.

Definition normalizeQuery (query : jsstring) : jsstring :=
  let trimmed := trim query in
  if negb (truthy trimmed) then query
  else if bracketed trimmed then
    match JSON_parse trimmed with
    | Some parsed => default trimmed (recoverQuery query parsed)
    | None => trimmed
    end
  else trimmed.

(** [meta && typeof meta === "object"] holds of arrays and objects. *)
Definition resolveLocale (meta : value number) : jsstring :=
  let defaultLocale := serverConfig.defaultLocale in
  match meta with
  | VArray _ | VObject _ =>
      match coalesce (getProp meta (js "openai/locale"))
                     (getProp meta (js "webplus/i18n")) with
      | VString locale =>
          if (0 <? length locale)%nat then locale else defaultLocale
      | _ => defaultLocale
      end
  | _ => defaultLocale
  end.

Definition toStructuredContent (input : SearchImagesInput)
    (result : PixabayImageSearchResult) : ImageSearchStructuredContent :=
  {| Content.query := query input;
     Content.resultCount := length (ImageSearch.results result);
     Content.results := ImageSearch.results result;
     Content.attribution :=
       js "Images provided by Pixabay under the Pixabay License." |}.

(** The value the tool handler resolves to. *)
Record ToolResult : Type := {
  content : jsstring;
  structuredContent : ImageSearchStructuredContent;
  meta_locale : jsstring;
  meta_rateLimit : RateLimitInfo;
}.

(** The template literal computing [summary]. *)
Definition summaryOf (structuredContent : ImageSearchStructuredContent)
  : jsstring :=
  if (0 <? Content.resultCount structuredContent)%nat
  then js "Found " ++ decimal (Content.resultCount structuredContent)
       ++ js " Pixabay image"
       ++ (if bool_decide (Content.resultCount structuredContent = 1%nat)
           then [] else js "s")
       ++ js " for " ++ [dquote] ++ Content.query structuredContent
       ++ [dquote] ++ js "."
  else js "No Pixabay images found for " ++ [dquote]
       ++ Content.query structuredContent ++ [dquote]
       ++ js ". Try a different description or add more detail.".

(** The handler of [search_pixabay_images] up to its only network
    call: it throws at once, or it awaits [pixabayClient.searchImages]
    with the given parameters and, if that call returns, resolves to
    what [andThen] makes of its result (an error of the call propagates
    unchanged). *)
Inductive handling : Type :=
| Rejects (e : McpError)
| AwaitsSearch (params : SearchImagesParams)
    (andThen : PixabayImageSearchResult → ToolResult).

Definition handler `{Host} (rawInput meta : value number) : handling :=
  let locale := resolveLocale meta in
  match searchImagesInputSchema rawInput with
  | inl issues =>
      let errorMessage := join (js "; ") (issueMessage <$> issues) in
      Rejects {| errorCode := InvalidParams; message := errorMessage |}
  | inr input =>
      let normalizedInput :=
        {| query := normalizeQuery (query input);
           orientation := orientation input;
           safesearch := safesearch input;
           per_page := per_page input |} in
      AwaitsSearch {| input := normalizedInput; locale := locale |}
        (λ searchResult,
           let structuredContent :=
             toStructuredContent normalizedInput searchResult in
           {| content := summaryOf structuredContent;
              structuredContent := structuredContent;
              meta_locale := locale;
              meta_rateLimit := ImageSearch.rateLimit searchResult |})
  end.

(** The result of the handler once the awaited search has returned
    [searchResult]; [None] when the handler had thrown before. *)
Definition resume (h : handling) (searchResult : PixabayImageSearchResult)
  : option ToolResult :=
  match h with
  | Rejects _ => None
  | AwaitsSearch _ andThen => Some (andThen searchResult)
  end.

(** The parameters of the awaited search. *)
Definition awaited (h : handling) : option SearchImagesParams :=
  match h with
  | Rejects _ => None
  | AwaitsSearch params _ => Some params
  end.

(** ** pixabay.ts: the upstream request *)

(** [String(b)] for a boolean. *)
Definition String_bool (b : bool) : jsstring :=
  if b then js "true" else js "false".

(** The string a value of the orientation enum is. *)
Definition orientationName (o : Orientation) : jsstring :=
  match o with
  | all => js "all"
  | horizontal => js "horizontal"
  | vertical => js "vertical"
  end.

(** The object [searchImages] gives to [new URLSearchParams], as its
    entries in order; [pixabayApiKey] is [serverConfig.pixabayApiKey],
    read from the environment. *)
Definition imageSearchParams `{Host} (pixabayApiKey : jsstring)
    (params : SearchImagesParams) : list (jsstring * jsstring) :=
  let lang := resolveLanguage (Some (locale params)) in
  [(js "key", pixabayApiKey);
   (js "q", query (input params));
   (js "safesearch", String_bool (default true (safesearch (input params))));
   (js "per_page",
    numberToString (default (ofNat serverConfig.defaultPerPage)
                            (per_page (input params))));
   (js "lang", lang);
   (js "image_type", js "photo");
   (js "orientation", orientationName (default all (orientation (input params))))].

(** The same for [searchVideos]. *)
Definition videoSearchParams `{Host} (pixabayApiKey : jsstring)
    (params : SearchImagesParams) : list (jsstring * jsstring) :=
  let lang := resolveLanguage (Some (locale params)) in
  [(js "key", pixabayApiKey);
   (js "q", query (input params));
   (js "safesearch", String_bool (default true (safesearch (input params))));
   (js "per_page",
    numberToString (default (ofNat serverConfig.defaultPerPage)
                            (per_page (input params))));
   (js "lang", lang)].

(** ** index.ts (image and video search tools) *)

(** The second server of the sources registers an image tool and a
    video tool, which share [toStructuredContent] and [buildSummary]. *)
Module Media.

Record MediaSearchStructuredContent : Type := {
  query : jsstring;
  imageCount : nat;
  videoCount : nat;
  images : list ImageResult;
  videos : list VideoResult;
  attribution : jsstring;
}.

(** [imageResult] and [videoResult] are optional properties of the
    argument. *)
Definition toStructuredContent (input : SearchImagesInput)
    (imageResult : option PixabayImageSearchResult)
    (videoResult : option PixabayVideoSearchResult)
  : MediaSearchStructuredContent :=
  let '(Build_SearchImagesInput inputQuery _ _ _) := input in
  {| query := inputQuery;
     imageCount :=
       default 0%nat ((λ r, length (ImageSearch.results r)) <$> imageResult);
     videoCount :=
       default 0%nat ((λ r, length (VideoSearch.results r)) <$> videoResult);
     images := default [] (ImageSearch.results <$> imageResult);
     videos := default [] (VideoSearch.results <$> videoResult);
     attribution :=
       js "Media provided by Pixabay under the Pixabay License." |}.

(** [descriptors.slice(0, -1)] and [descriptors.slice(-1)] *)
Definition sliceInit (l : list jsstring) : list jsstring :=
  take (length l - 1) l.

Definition sliceLast (l : list jsstring) : list jsstring :=
  drop (length l - 1) l.

Definition buildSummary (content : MediaSearchStructuredContent)
  : jsstring :=
  let descriptors : list jsstring := [] in
  let descriptors :=
    if (0 <? imageCount content)%nat
    then descriptors
         ++ [decimal (imageCount content) ++ js " image"
             ++ (if bool_decide (imageCount content = 1%nat)
                 then [] else js "s")]
    else descriptors in
  let descriptors :=
    if (0 <? videoCount content)%nat
    then descriptors
         ++ [decimal (videoCount content) ++ js " video"
             ++ (if bool_decide (videoCount content = 1%nat)
                 then [] else js "s")]
    else descriptors in
  if (0 <? length descriptors)%nat then
    let joined :=
      if bool_decide (length descriptors = 1%nat)
      then default [] (head descriptors)
      else join (js ", ") (sliceInit descriptors) ++ js " and "
           ++ join (js ",") (sliceLast descriptors) in
    js "Found " ++ joined ++ js " on Pixabay for " ++ [dquote]
    ++ query content ++ [dquote] ++ js "."
  else
    js "No Pixabay media found for " ++ [dquote] ++ query content
    ++ [dquote] ++ js ". Try a different description or add more detail.".

End Media.

(** ** A host for the worked examples *)

(** The examples below run the definitions on a host whose URL test
    accepts the strings with an http(s) scheme, whose number printer
    prints the integers written with exponent 0, and whose default
    message is the same for every issue. The theorems hold for every
    host. *)
Definition exampleHost : Host := {|
  isUrl := hasHttpScheme;
  numberToString := λ n,
    match n with
    | Dyadic m 0 =>
        if (m <? 0)%Z then 45 :: decimal (Z.to_nat (- m))
        else decimal (Z.to_nat m)
    | Infinity negative =>
        if negative then js "-Infinity" else js "Infinity"
    | _ => js "NaN"
    end;
  zodDefaultMessage := λ _, js "Invalid input";
|}.

(** * Vocabulary of the specification *)

(** The text before the first separator of a string. *)
Fixpoint beforeFirst (sep : N → bool) (s : jsstring) : jsstring :=
  match s with
  | [] => []
  | c :: r => if sep c then [] else c :: beforeFirst sep r
  end.

(** [jsq] writes a JavaScript string with the apostrophe standing for the
    double quote, so that JSON texts can be spelled out. *)
Definition jsq (s : string) : jsstring :=
  (λ c, if c =? 39 then dquote else c) <$> js s.

(** The separators of the subtags of a locale, [-] and [_]. *)
Definition subtagSeparator (c : N) : bool := (c =? 45) || (c =? 95).

(** A query wrapped in a JSON object, and what it parses to. *)
Definition wrappedCats : jsstring := jsq " {'query':'cats'} ".

Definition catsObject : value jsstring :=
  VObject [(js "query", VString (js "cats"))].

(** The query that wraps a blank nested query. *)
Definition blankNestedQuery : jsstring := jsq "{'query':' '}".

(** The recovery of a nested query as the specification words it: for
    a text that parses to an object whose field [query] is a non-empty
    string, normalisation returns that field, trimmed. *)
Definition recoversNonEmptyNestedQuery (query : jsstring) : Prop :=
  ∀ props nestedQuery,
    JSON_parse query = Some (VObject props) →
    getProp (VObject props) (js "query") = VString nestedQuery →
    nestedQuery ≠ [] →
    normalizeQuery query = trim nestedQuery.

(** A response with status 401 and the body Pixabay sends with it. *)
Definition noRateLimit : RateLimitInfo :=
  {| limit := None; remaining := None; resetSeconds := None |}.

Definition unauthorized : Response :=
  {| status := 401; statusText := js "Unauthorized";
     text := Some (js "[ERROR 401] Invalid or missing API key");
     json := None; rateLimitHeaders := noRateLimit |}.

(** A response with status 500 and a blank body. *)
Definition serverError : Response :=
  {| status := 500; statusText := js "Internal Server Error";
     text := Some (js "  "); json := None;
     rateLimitHeaders := noRateLimit |}.

(** *** Input validation *)

(** The integer a number is, when it is one. *)
Definition integerValue (x : number) : option Z :=
  match x with
  | Dyadic m e =>
      if (0 <=? e)%Z then Some (m * 2 ^ e)%Z
      else if (m `mod` 2 ^ (- e) =? 0)%Z then Some (m `div` 2 ^ (- e))%Z
      else None
  | _ => None
  end.

(** A field is absent when reading it gives [undefined]. *)
Definition absent (v : value number) : Prop := v = VUndefined.

(** The conditions under which the specification says validation
    succeeds: the trimmed query has 1 to 100 characters, the orientation
    if present is one of the three values, [per_page] if present is an
    integer in [3,20], and there is no field beyond the four of the
    request. *)
Definition validAsClaimed (raw : value number) : Prop :=
  (∃ q, getProp raw (js "query") = VString q ∧
        (1 ≤ length (trim q) ≤ 100)%nat) ∧
  (absent (getProp raw (js "orientation")) ∨
   ∃ o, getProp raw (js "orientation") = VString o ∧
        o ∈ [js "all"; js "horizontal"; js "vertical"]) ∧
  (absent (getProp raw (js "per_page")) ∨
   ∃ n z, getProp raw (js "per_page") = VNumber n ∧
          integerValue n = Some z ∧ (3 ≤ z ≤ 20)%Z) ∧
  (∃ props, raw = VObject props ∧
     ∀ k, k ∈ (fst <$> props) →
          k ∈ [js "query"; js "orientation"; js "safesearch"; js "per_page"]).

(** The same with the condition on [safesearch] the schema also has. *)
Definition validPayload (raw : value number) : Prop :=
  validAsClaimed raw ∧
  (absent (getProp raw (js "safesearch")) ∨
   ∃ b, getProp raw (js "safesearch") = VBool b).

(** The constraints on a payload, in the order the schema reports
    them. *)
Inductive Constraint : Type :=
| PayloadIsObject
| QueryIsString
| QueryNotEmpty
| QueryAtMost100
| OrientationIsString
| OrientationIsListed
| SafesearchIsBoolean
| PerPageIsNumber
| PerPageIsInteger
| PerPageAtLeast3
| PerPageAtMost20
| NoExtraFields.

Definition constraints : list Constraint :=
  [PayloadIsObject; QueryIsString; QueryNotEmpty; QueryAtMost100;
   OrientationIsString; OrientationIsListed; SafesearchIsBoolean;
   PerPageIsNumber; PerPageIsInteger; PerPageAtLeast3; PerPageAtMost20;
   NoExtraFields].

Definition isObject (v : value number) : bool :=
  match v with VObject _ => true | _ => false end.

Definition isPresent (v : value number) : bool :=
  match v with VUndefined => false | _ => true end.

(** The keys of a payload outside the request, as the runtime
    enumerates them. *)
Definition extraFields (raw : value number) : list jsstring :=
  match raw with
  | VObject props =>
      filter (λ k, k ∉ [js "query"; js "orientation"; js "safesearch";
                        js "per_page"]) (ownKeys props)
  | _ => []
  end.

(** When a payload violates a constraint. *)
Definition violated (raw : value number) (c : Constraint) : bool :=
  match c with
  | PayloadIsObject => negb (isObject raw)
  | QueryIsString =>
      isObject raw && negb (isString (getProp raw (js "query")))
  | QueryNotEmpty =>
      match getProp raw (js "query") with
      | VString q => bool_decide (trim q = [])
      | _ => false
      end
  | QueryAtMost100 =>
      match getProp raw (js "query") with
      | VString q => bool_decide (100 < length (trim q))%nat
      | _ => false
      end
  | OrientationIsString =>
      isPresent (getProp raw (js "orientation"))
      && negb (isString (getProp raw (js "orientation")))
  | OrientationIsListed =>
      match getProp raw (js "orientation") with
      | VString o =>
          negb (bool_decide (o ∈ [js "all"; js "horizontal"; js "vertical"]))
      | _ => false
      end
  | SafesearchIsBoolean =>
      match getProp raw (js "safesearch") with
      | VUndefined | VBool _ => false
      | _ => true
      end
  | PerPageIsNumber =>
      match getProp raw (js "per_page") with
      | VUndefined => false
      | VNumber n => isNaN n
      | _ => true
      end
  | PerPageIsInteger =>
      match getProp raw (js "per_page") with
      | VNumber n => negb (isNaN n) && negb (Number_isInteger n)
      | _ => false
      end
  | PerPageAtLeast3 =>
      match getProp raw (js "per_page") with
      | VNumber n => ltZ n 3
      | _ => false
      end
  | PerPageAtMost20 =>
      match getProp raw (js "per_page") with
      | VNumber n => gtZ n 20
      | _ => false
      end
  | NoExtraFields => negb (bool_decide (extraFields raw = []))
  end.

(** The issue reported for a violated constraint. *)
Definition issueOf (raw : value number) (c : Constraint) : ZodIssue :=
  let typeIssue key expected v :=
    {| code := invalid_type (js expected) (parsedType v);
       path := key; custom := None |} in
  match c with
  | PayloadIsObject => typeIssue [] "object"%string raw
  | QueryIsString =>
      typeIssue [js "query"] "string"%string (getProp raw (js "query"))
  | QueryNotEmpty =>
      {| code := too_small 1; path := [js "query"];
         custom := Some (js "Please provide a search query.") |}
  | QueryAtMost100 =>
      {| code := too_big 100; path := [js "query"];
         custom := Some (js "Queries must be 100 characters or fewer.") |}
  | OrientationIsString =>
      typeIssue [js "orientation"] "'all' | 'horizontal' | 'vertical'"%string
                (getProp raw (js "orientation"))
  | OrientationIsListed =>
      {| code :=
           invalid_enum_value [js "all"; js "horizontal"; js "vertical"]
             (match getProp raw (js "orientation") with
              | VString o => o
              | _ => []
              end);
         path := [js "orientation"]; custom := None |}
  | SafesearchIsBoolean =>
      typeIssue [js "safesearch"] "boolean"%string
                (getProp raw (js "safesearch"))
  | PerPageIsNumber =>
      typeIssue [js "per_page"] "number"%string (getProp raw (js "per_page"))
  | PerPageIsInteger =>
      {| code := invalid_type (js "integer") (js "float");
         path := [js "per_page"]; custom := None |}
  | PerPageAtLeast3 =>
      {| code := too_small 3; path := [js "per_page"];
         custom := Some (js "per_page must be between 3 and 20.") |}
  | PerPageAtMost20 =>
      {| code := too_big 20; path := [js "per_page"];
         custom := Some (js "per_page must be between 3 and 20.") |}
  | NoExtraFields =>
      {| code := unrecognized_keys (extraFields raw); path := [];
         custom := None |}
  end.

(** The violated constraints of a payload, in order. *)
Definition violations (raw : value number) : list Constraint :=
  filter (λ c, violated raw c) constraints.

(** A payload with a query and a [safesearch] that is not a boolean. *)
Definition catsYes : value number :=
  VObject [(js "query", VString (js "cats"));
           (js "safesearch", VString (js "yes"))].

(** A payload violating three constraints. *)
Definition blankFar : value number :=
  VObject [(js "query", VString (js "   "));
           (js "per_page", VNumber (Dyadic 51 (-1)))].

(** *** Worked example of a search *)

Definition sunsetInput : value number :=
  VObject [(js "query", VString (js "sunset"));
           (js "per_page", VNumber (Dyadic 5 0))].

Definition sampleImage (n : Z) : ImageResult :=
  {| Image.id := Dyadic n 0;
     Image.previewUrl := js "https://cdn.pixabay.com/photo/preview.jpg";
     Image.pageUrl := js "https://pixabay.com/photos/sunset/";
     Image.imageUrl := js "https://pixabay.com/get/sunset.jpg";
     Image.imageWidth := Dyadic 640 0;
     Image.imageHeight := Dyadic 480 0;
     Image.tags := [js "sunset"];
     Image.photographer :=
       {| name := js "ana";
          profileUrl := js "https://pixabay.com/users/ana-7/" |};
     Image.likes := Dyadic 0 0;
     Image.downloads := Dyadic 0 0 |}.

(** Three results out of 120. *)
Definition threeOf120 : PixabayImageSearchResult :=
  {| ImageSearch.results := [sampleImage 1; sampleImage 2; sampleImage 3];
     ImageSearch.totalHits := VNumber (Dyadic 120 0);
     ImageSearch.rateLimit := noRateLimit |}.

(** *** Video renditions *)

(** The test for a well-formed absolute http(s) URL after trimming:
    the trimmed string is not empty and starts with the scheme. *)
Definition httpUrl (s : jsstring) : bool :=
  truthy (trim s) && hasHttpScheme (trim s).

(** The trimmed URL of an optional string that passes the test. *)
Definition trimmedHttpUrl (s : option jsstring) : option jsstring :=
  s ← s; if httpUrl s then Some (trim s) else None.

(** The first success of [f] over the renditions present at [keys], in
    that order. *)
Definition firstOf {A} (keys : list RenditionKey) (videos : Videos)
    (f : Rendition → option A) : option A :=
  head (omap (λ key, rendition videos key ≫= f) keys).

(** A video hit whose only rendition with a URL is [small], without a
    thumbnail of its own; [tiny] has a thumbnail only. *)
Definition smallOnly : PixabayVideoHit :=
  {| VideoHit.id := Dyadic 9 0;
     VideoHit.pageURL := js "https://pixabay.com/videos/id-9/";
     VideoHit.tags := js "sea, waves";
     VideoHit.duration := Dyadic 12 0;
     VideoHit.type := js "film";
     VideoHit.videos :=
       {| Videos.large := None;
          Videos.medium :=
            Some {| url := []; width := Dyadic 0 0; height := Dyadic 0 0;
                    size := None; thumbnail := None |};
          Videos.small :=
            Some {| url := js " https://cdn.pixabay.com/video/small.mp4 ";
                    width := Dyadic 640 0; height := Infinity false;
                    size := None; thumbnail := Some [] |};
          Videos.tiny :=
            Some {| url := js "ftp://cdn.pixabay.com/video/tiny.mp4";
                    width := Dyadic 320 0; height := Dyadic 180 0;
                    size := None;
                    thumbnail :=
                      Some (js "https://cdn.pixabay.com/video/tiny.jpg") |} |};
     VideoHit.user := js "ana";
     VideoHit.user_id := Dyadic 7 0;
     VideoHit.userImageURL := VNull;
     VideoHit.views := None;
     VideoHit.downloads := None;
     VideoHit.likes := Some (Dyadic 3 0) |}.

(** A video hit without any usable rendition. *)
Definition noRendition : PixabayVideoHit :=
  {| VideoHit.id := Dyadic 10 0;
     VideoHit.pageURL := js "https://pixabay.com/videos/id-10/";
     VideoHit.tags := [];
     VideoHit.duration := Dyadic 1 0;
     VideoHit.type := js "film";
     VideoHit.videos :=
       {| Videos.large := None; Videos.medium := None;
          Videos.small := None; Videos.tiny := None |};
     VideoHit.user := js "ana";
     VideoHit.user_id := Dyadic 7 0;
     VideoHit.userImageURL := VNull;
     VideoHit.views := None;
     VideoHit.downloads := None;
     VideoHit.likes := None |}.

(** *** Upstream bodies *)

(** A raw image hit of user [user]; every URL field holds the same
    page URL. *)
Definition rawImageHit (user : jsstring) : value number :=
  VObject [(js "id", VNumber (Dyadic 1 0));
           (js "pageURL", VString (js "https://pixabay.com/photos/sunset-1/"));
           (js "previewURL", VString (js "https://pixabay.com/photos/sunset-1/"));
           (js "webformatURL", VString (js "https://pixabay.com/photos/sunset-1/"));
           (js "imageWidth", VNumber (Dyadic 640 0));
           (js "imageHeight", VNumber (Dyadic 480 0));
           (js "tags", VString (js "sunset, sea"));
           (js "user", VString user);
           (js "user_id", VNumber (Dyadic 7 0));
           (js "likes", VNumber (Dyadic 0 0));
           (js "downloads", VNumber (Dyadic 0 0))].

(** A success response with the given JSON body. *)
Definition okResponse (body : value number) : Response :=
  {| status := 200; statusText := js "OK"; text := None;
     json := Some body; rateLimitHeaders := noRateLimit |}.

(** A body with one valid hit and one that is no record, without a
    total. *)
Definition oneValidOfTwo : value number :=
  VObject [(js "hits", VArray [rawImageHit (js "ana"); VNull])].

(** A body whose last hit is valid and has a user name that is a lone
    surrogate (U+D800). *)
Definition loneSurrogateUser : value number :=
  VObject [(js "hits", VArray [rawImageHit (js "ana"); VNull;
                               rawImageHit [55296]]);
           (js "totalHits", VNumber (Dyadic 2 0))].

(** *** Further worked examples *)

(** Call metadata whose first locale key holds a number and whose
    second holds a locale. *)
Definition maskedLocale : value number :=
  VObject [(js "openai/locale", VNumber (Dyadic 5 0));
           (js "webplus/i18n", VString (js "pt-BR"))].


(** A body one of whose hits has a user name that cannot be encoded. *)
Definition unencodableUser (body : value number) : Prop :=
  ∃ rawHit user,
    rawHit ∈ hitsOf (getProp body (js "hits")) ∧
    getProp rawHit (js "user") = VString user ∧
    encodeURIComponent user = None.

(** The profile page of a contributor, given the encoded user name. *)
Definition profilePage `{Host} (encoded : jsstring) (userId : number)
  : jsstring :=
  js "https://pixabay.com/users/" ++ encoded ++ js "-"
  ++ numberToString userId ++ js "/".

(** [image] is the result made from the parsed hit [hit]. *)
Definition imageOf `{Host} (hit : PixabayImageHit) (image : ImageResult)
  : Prop :=
  Image.id image = ImageHit.id hit ∧
  Image.pageUrl image = ImageHit.pageURL hit ∧
  Image.previewUrl image = ImageHit.previewURL hit ∧
  Image.imageUrl image = ImageHit.webformatURL hit ∧
  Image.imageWidth image = ImageHit.imageWidth hit ∧
  Image.imageHeight image = ImageHit.imageHeight hit ∧
  Image.tags image = normalizeTags (ImageHit.tags hit) ∧
  name (Image.photographer image) = ImageHit.user hit ∧
  (∃ encoded,
     encodeURIComponent (ImageHit.user hit) = Some encoded ∧
     profileUrl (Image.photographer image)
     = profilePage encoded (ImageHit.user_id hit)) ∧
  Image.likes image = ImageHit.likes hit ∧
  Image.downloads image = ImageHit.downloads hit.

(** [video] is the result made from the parsed hit [hit], whose
    selected rendition is [r]. *)
Definition videoOf `{Host} (hit : PixabayVideoHit) (video : VideoResult)
  : Prop :=
  ∃ r,
    pickVideoRendition hit = Some r ∧
    Video.id video = VideoHit.id hit ∧
    Video.pageUrl video = VideoHit.pageURL hit ∧
    Video.videoUrl video = trim (url r) ∧
    Video.previewImageUrl video = findThumbnail hit (thumbnail r) ∧
    Video.width video
    = (if Number_isFinite (width r) then Some (width r) else None) ∧
    Video.height video
    = (if Number_isFinite (height r) then Some (height r) else None) ∧
    Video.durationSeconds video = VideoHit.duration hit ∧
    Video.tags video = normalizeTags (VideoHit.tags hit) ∧
    name (Video.creator video) = VideoHit.user hit ∧
    (∃ encoded,
       encodeURIComponent (VideoHit.user hit) = Some encoded ∧
       profileUrl (Video.creator video)
       = profilePage encoded (VideoHit.user_id hit)) ∧
    Video.likes video = VideoHit.likes hit ∧
    Video.downloads video = VideoHit.downloads hit.

(** A body with two hits that are not records and no total. *)
Definition twoBadHits : value number :=
  VObject [(js "hits", VArray [VNull; VString (js "x")])].

(** A raw video hit whose [videos] holds the given renditions. *)
Definition rawVideoHit (videos : list (jsstring * value number))
  : value number :=
  VObject [(js "id", VNumber (Dyadic 9 0));
           (js "pageURL", VString (js "https://pixabay.com/videos/id-9/"));
           (js "tags", VString (js "sea, , waves "));
           (js "duration", VNumber (Dyadic 12 0));
           (js "type", VString (js "film"));
           (js "videos", VObject videos);
           (js "user", VString (js "ana"));
           (js "user_id", VNumber (Dyadic 7 0))].

(** A raw rendition with the given URL; its height overflows to
    infinity, as [1e999] does when it is parsed. *)
Definition rawRendition (url : jsstring) : value number :=
  VObject [(js "url", VString url);
           (js "width", VNumber (Dyadic 640 0));
           (js "height", VNumber (Infinity false))].

(** A body with three video hits: one with a usable rendition, one whose
    only rendition has an empty URL, and one with a rendition under a
    key outside the four of the schema. *)
Definition threeVideoHits : value number :=
  VObject
    [(js "hits",
      VArray
        [rawVideoHit
           [(js "small",
             rawRendition (js "https://cdn.pixabay.com/video/small.mp4"))];
         rawVideoHit [(js "tiny", rawRendition [])];
         rawVideoHit
           [(js "small",
             rawRendition (js "https://cdn.pixabay.com/video/small.mp4"));
            (js "huge",
             rawRendition (js "https://cdn.pixabay.com/video/huge.mp4"))]])].

(** A tag as the results carry them: not empty, without surrounding
    white space and without a comma. *)
Definition cleanTag (tag : jsstring) : Prop :=
  tag ≠ [] ∧ trim tag = tag ∧ 44 ∉ tag.

(** A URL as [sanitizeUrl] returns them: not empty, without surrounding
    white space, starting with the http(s) scheme. *)
Definition webUrl (u : jsstring) : Prop :=
  u ≠ [] ∧ trim u = u ∧ hasHttpScheme u = true.

(** The invariant of an image result. *)
Definition wellFormedImage `{Host} (image : ImageResult) : Prop :=
  isNaN (Image.id image) = false ∧
  isUrl (Image.pageUrl image) = true ∧
  isUrl (Image.previewUrl image) = true ∧
  isUrl (Image.imageUrl image) = true ∧
  isNaN (Image.imageWidth image) = false ∧
  isNaN (Image.imageHeight image) = false ∧
  Forall cleanTag (Image.tags image) ∧
  (∃ rest,
     profileUrl (Image.photographer image)
     = js "https://pixabay.com/users/" ++ rest ++ js "/") ∧
  isNaN (Image.likes image) = false ∧
  isNaN (Image.downloads image) = false.

(** The invariant of a video result. *)
Definition wellFormedVideo `{Host} (video : VideoResult) : Prop :=
  isNaN (Video.id video) = false ∧
  isUrl (Video.pageUrl video) = true ∧
  (∀ u, Video.previewImageUrl video = Some u → webUrl u) ∧
  (∀ w, Video.width video = Some w → Number_isFinite w = true) ∧
  (∀ h, Video.height video = Some h → Number_isFinite h = true) ∧
  (∃ z, integerValue (Video.durationSeconds video) = Some z ∧ (0 ≤ z)%Z) ∧
  Forall cleanTag (Video.tags video) ∧
  (∃ rest,
     profileUrl (Video.creator video)
     = js "https://pixabay.com/users/" ++ rest ++ js "/") ∧
  (∀ n, Video.likes video = Some n → isNaN n = false) ∧
  (∀ n, Video.downloads video = Some n → isNaN n = false).

(** The plural ending of a count. *)
Definition pluralS (n : nat) : jsstring :=
  if bool_decide (n = 1%nat) then [] else js "s".

(** A video result of the given id. *)
Definition sampleVideo (n : Z) : VideoResult :=
  {| Video.id := Dyadic n 0;
     Video.pageUrl := js "https://pixabay.com/videos/id-9/";
     Video.videoUrl := js "https://cdn.pixabay.com/video/small.mp4";
     Video.previewImageUrl := None;
     Video.width := None; Video.height := None;
     Video.durationSeconds := Dyadic 12 0;
     Video.tags := [];
     Video.creator := {| name := js "ana"; profileUrl := [] |};
     Video.likes := None; Video.downloads := None |}.

(** * Properties *)

(** ** Strings *)

Lemma trimStart_head (s : jsstring) :
  match trimStart s with
  | [] => True
  | c :: _ => isWhiteSpace c = false
  end.
Proof.
  induction s as [|c r IH]; simpl; [done|].
  destruct (isWhiteSpace c) eqn:Hc; [done|]. by rewrite Hc.
Qed.

Lemma trimStart_id (c : N) (r : jsstring) :
  isWhiteSpace c = false → trimStart (c :: r) = c :: r.
Proof. intros Hc. simpl. by rewrite Hc. Qed.

Lemma trimEnd_cons_keep (c : N) (r : jsstring) :
  isWhiteSpace c = false → ∃ r', trimEnd (c :: r) = c :: r'.
Proof.
  intros Hc. simpl. destruct (trimEnd r) as [|x r']; [|by eexists].
  rewrite Hc. by eexists.
Qed.

Lemma trimEnd_idemp (s : jsstring) : trimEnd (trimEnd s) = trimEnd s.
Proof.
  induction s as [|c r IH]; [done|]. simpl.
  destruct (trimEnd r) as [|x r'] eqn:Hr.
  - destruct (isWhiteSpace c) eqn:Hc; [done|]. simpl. by rewrite Hc.
  - change (trimEnd (c :: x :: r') = c :: x :: r').
    remember (x :: r') as t. simpl. rewrite IH. by subst t.
Qed.

(** Trimming is idempotent. *)
Lemma trim_idemp (s : jsstring) : trim (trim s) = trim s.
Proof.
  unfold trim. pose proof (trimStart_head s) as Hh.
  destruct (trimStart s) as [|c r]; [done|].
  destruct (trimEnd_cons_keep c r Hh) as [r' Hr']. rewrite Hr'.
  rewrite trimStart_id by done. rewrite <- Hr'. apply trimEnd_idemp.
Qed.

Lemma head_split (sep : N → bool) (s : jsstring) :
  head (split sep s) = Some (beforeFirst sep s).
Proof.
  induction s as [|c r IH]; simpl; [done|].
  destruct (sep c); [done|].
  destruct (split sep r) as [|w ws]; simpl in *; by simplify_eq.
Qed.

(** ** [JSON.parse] *)

Lemma skipWs_length (s : jsstring) : (length (skipWs s) ≤ length s)%nat.
Proof.
  induction s as [|c r IH]; simpl; [done|].
  destruct (isJsonWs c); simpl; lia.
Qed.

Lemma skipWs_cons_length (s r : jsstring) (c : N) :
  skipWs s = c :: r → (length r < length s)%nat.
Proof.
  intros Hs. pose proof (skipWs_length s) as Hl.
  rewrite Hs in Hl. simpl in Hl. lia.
Qed.

Lemma span_length (p : N → bool) (s : jsstring) :
  (length (span p s).2 ≤ length s)%nat.
Proof.
  induction s as [|c r IH]; simpl; [done|].
  destruct (p c); simpl; [|lia].
  destruct (span p r); simpl in *; lia.
Qed.

Lemma stripPrefix_length (p s r : jsstring) :
  stripPrefix p s = Some r → (length r ≤ length s)%nat.
Proof.
  revert s. induction p as [|a p IH]; intros [|b s] Hs; simplify_eq/=; try lia.
  destruct (a =? b); [|done]. apply IH in Hs. lia.
Qed.

Lemma lexString_length (s x r : jsstring) :
  lexString s = Some (x, r) → (length r < length s)%nat.
Proof.
  remember (length s) as n eqn:Hn.
  assert (length s ≤ n)%nat as Hle by lia. clear Hn.
  revert s x r Hle.
  induction n as [|n IH]; intros [|c s] x r Hle Hs; simplify_eq/=; try lia.
  destruct (c =? 34); [simplify_eq; lia|].
  destruct (c =? 92).
  - destruct s as [|e s1]; [done|]. destruct (e =? 117).
    + destruct s1 as [|h1 [|h2 [|h3 [|h4 r2]]]]; try done.
      destruct (hexValue h1), (hexValue h2), (hexValue h3), (hexValue h4);
        simplify_eq/=.
      destruct (lexString r2) as [[str rest]|] eqn:Hr2; simplify_eq/=.
      apply IH in Hr2; simpl in *; lia.
    + destruct (simpleEscape e); simplify_eq/=.
      destruct (lexString s1) as [[str rest]|] eqn:Hs1; simplify_eq/=.
      apply IH in Hs1; simpl in *; lia.
  - destruct (c <? 32); [done|].
    destruct (lexString s) as [[str rest]|] eqn:Hs'; simplify_eq/=.
    apply IH in Hs'; lia.
Qed.

Lemma lexSign_length (s : jsstring) :
  (length (lexSign s).2 ≤ length s)%nat.
Proof. destruct s as [|c r]; [done|]. simpl. destruct (c =? 45); simpl; lia. Qed.

Lemma lexInt_length (s x r : jsstring) :
  lexInt s = Some (x, r) → (length r < length s)%nat.
Proof.
  destruct s as [|d s]; [done|]. simpl.
  destruct (d =? 48); [intros; simplify_eq; lia|].
  destruct (isDigit d); [|done].
  pose proof (span_length isDigit s) as Hsp.
  destruct (span isDigit s) as [ds r']. intros; simplify_eq/=. lia.
Qed.

Lemma lexFrac_length (s x r : jsstring) :
  lexFrac s = Some (x, r) → (length r ≤ length s)%nat.
Proof.
  destruct s as [|c s]; [intros; simplify_eq/=; lia|]. simpl.
  destruct (c =? 46); [|intros; simplify_eq/=; lia].
  pose proof (span_length isDigit s) as Hsp.
  destruct (span isDigit s) as [ds r'].
  destruct (truthy ds); intros; simplify_eq/=. lia.
Qed.

Lemma lexExp_length (s x r : jsstring) :
  lexExp s = Some (x, r) → (length r ≤ length s)%nat.
Proof.
  destruct s as [|c s]; [intros; simplify_eq/=; lia|]. simpl.
  destruct ((c =? 101) || (c =? 69)); [|intros; simplify_eq/=; lia].
  assert (length (lexExpSign s).2 ≤ length s)%nat as Hsg.
  { destruct s as [|g s']; [done|]. simpl.
    destruct ((g =? 43) || (g =? 45)); simpl; lia. }
  destruct (lexExpSign s) as [sg r1]. simpl in Hsg.
  pose proof (span_length isDigit r1) as Hsp.
  destruct (span isDigit r1) as [ds r'].
  destruct (truthy ds); intros; simplify_eq/=. lia.
Qed.

Lemma lexNumber_length (s x r : jsstring) :
  lexNumber s = Some (x, r) → (length r < length s)%nat.
Proof.
  unfold lexNumber. pose proof (lexSign_length s) as Hsg.
  destruct (lexSign s) as [sign s1]. simpl in Hsg.
  destruct (lexInt s1) as [[int s2]|] eqn:Hint; simpl; [|done].
  destruct (lexFrac s2) as [[frac s3]|] eqn:Hfrac; simpl; [|done].
  destruct (lexExp s3) as [[exp s4]|] eqn:Hexp; simpl; [|done].
  intros; simplify_eq.
  apply lexInt_length in Hint. apply lexFrac_length in Hfrac.
  apply lexExp_length in Hexp. lia.
Qed.

#[local] Arguments stripPrefix : simpl never.
#[local] Arguments lexNumber : simpl never.

Lemma parsingMap_Parsed {A B} (f : A → B) (p : parsing A) (b : B)
    (r : jsstring) :
  parsingMap f p = Parsed b r → ∃ a, p = Parsed a r ∧ b = f a.
Proof. destruct p; intros; simplify_eq/=. eauto. Qed.

Lemma parsingMap_fuel {A B} (f : A → B) (p : parsing A) :
  parsingMap f p = OutOfFuel → p = OutOfFuel.
Proof. by destruct p. Qed.

Lemma ofLex_Parsed {A} (f : jsstring → A) (l : option (jsstring * jsstring))
    (a : A) (r : jsstring) :
  ofLex f l = Parsed a r → ∃ x, l = Some (x, r) ∧ a = f x.
Proof. destruct l as [[x r']|]; intros; simplify_eq/=. eauto. Qed.

Lemma ofLex_fuel {A} (f : jsstring → A) (l : option (jsstring * jsstring)) :
  ofLex f l ≠ OutOfFuel.
Proof. by destruct l as [[x r']|]. Qed.

(** Every parser consumes input. *)
Lemma parse_length (fuel : nat) :
  (∀ s v r, parseValue fuel s = Parsed v r → (length r < length s)%nat) ∧
  (∀ s vs r, parseElements fuel s = Parsed vs r → (length r < length s)%nat) ∧
  (∀ s ms r, parseMembers fuel s = Parsed ms r → (length r < length s)%nat).
Proof.
  induction fuel as [|fuel (IHv & IHe & IHm)]; [done|]. split_and!.
  - intros s v r. simpl.
    destruct (skipWs s) as [|c s0] eqn:Hs; [done|].
    apply skipWs_cons_length in Hs.
    destruct (c =? 123).
    { destruct (skipWs s0) as [|c' s1] eqn:Hs0; [done|].
      pose proof (skipWs_length s0) as Hl0. rewrite Hs0 in Hl0.
      destruct (c' =? 125); [intros; simplify_eq/=; lia|].
      intros (ms & Hms & _)%parsingMap_Parsed. apply IHm in Hms. lia. }
    destruct (c =? 91).
    { destruct (skipWs s0) as [|c' s1] eqn:Hs0; [done|].
      pose proof (skipWs_length s0) as Hl0. rewrite Hs0 in Hl0.
      destruct (c' =? 93); [intros; simplify_eq/=; lia|].
      intros (vs & Hvs & _)%parsingMap_Parsed. apply IHe in Hvs. lia. }
    destruct (c =? 34).
    { intros (x & Hx%lexString_length & _)%ofLex_Parsed. lia. }
    destruct (c =? 116).
    { intros (x & Hx & _)%ofLex_Parsed.
      destruct (stripPrefix _ s0) eqn:Hp; simplify_eq/=.
      apply stripPrefix_length in Hp. lia. }
    destruct (c =? 102).
    { intros (x & Hx & _)%ofLex_Parsed.
      destruct (stripPrefix _ s0) eqn:Hp; simplify_eq/=.
      apply stripPrefix_length in Hp. lia. }
    destruct (c =? 110).
    { intros (x & Hx & _)%ofLex_Parsed.
      destruct (stripPrefix _ s0) eqn:Hp; simplify_eq/=.
      apply stripPrefix_length in Hp. lia. }
    intros (x & Hx%lexNumber_length & _)%ofLex_Parsed. simpl in Hx. lia.
  - intros s vs r. simpl.
    destruct (parseValue fuel s) as [v r0| |] eqn:Hv; try done.
    apply IHv in Hv.
    destruct (skipWs r0) as [|c r1] eqn:Hr0; [done|].
    apply skipWs_cons_length in Hr0.
    destruct (c =? 44).
    { intros (vs' & Hvs & _)%parsingMap_Parsed. apply IHe in Hvs. lia. }
    destruct (c =? 93); intros; simplify_eq. lia.
  - intros s ms r. simpl.
    destruct (skipWs s) as [|q s0] eqn:Hs; [done|].
    apply skipWs_cons_length in Hs.
    destruct (q =? 34); [|done].
    destruct (lexString s0) as [[k r1]|] eqn:Hk; [|done].
    apply lexString_length in Hk.
    destruct (skipWs r1) as [|c1 r2] eqn:Hr1; [done|].
    apply skipWs_cons_length in Hr1.
    destruct (c1 =? 58); [|done].
    destruct (parseValue fuel r2) as [v r3| |] eqn:Hv; try done.
    apply IHv in Hv.
    destruct (skipWs r3) as [|c3 r4] eqn:Hr3; [done|].
    apply skipWs_cons_length in Hr3.
    destruct (c3 =? 44).
    { intros (ms' & Hms & _)%parsingMap_Parsed. apply IHm in Hms. lia. }
    destruct (c3 =? 125); intros; simplify_eq. lia.
Qed.

(** The fuel [JSON_parse] gives to [parseValue] is never exhausted:
    a result [None] of [JSON_parse] always stands for a syntax error. *)
Lemma parse_fuel (fuel : nat) :
  (∀ s, (2 * length s < fuel)%nat → parseValue fuel s ≠ OutOfFuel) ∧
  (∀ s, (2 * length s + 1 < fuel)%nat → parseElements fuel s ≠ OutOfFuel) ∧
  (∀ s, (2 * length s < fuel)%nat → parseMembers fuel s ≠ OutOfFuel).
Proof.
  induction fuel as [|fuel (IHv & IHe & IHm)]; [split_and!; intros; lia|].
  split_and!.
  - intros s Hf. simpl.
    destruct (skipWs s) as [|c s0] eqn:Hs; [done|].
    apply skipWs_cons_length in Hs.
    destruct (c =? 123).
    { destruct (skipWs s0) as [|c' s1] eqn:Hs0; [done|].
      pose proof (skipWs_length s0) as Hl0. rewrite Hs0 in Hl0.
      destruct (c' =? 125); [done|].
      intros Hm%parsingMap_fuel. revert Hm. apply IHm. simpl in *. lia. }
    destruct (c =? 91).
    { destruct (skipWs s0) as [|c' s1] eqn:Hs0; [done|].
      pose proof (skipWs_length s0) as Hl0. rewrite Hs0 in Hl0.
      destruct (c' =? 93); [done|].
      intros He%parsingMap_fuel. revert He. apply IHe. simpl in *. lia. }
    repeat (match goal with |- context [if ?b then _ else _] => destruct b end;
            [apply ofLex_fuel|]).
    apply ofLex_fuel.
  - intros s Hf. simpl.
    pose proof (IHv s ltac:(lia)) as Hv.
    destruct (parseValue fuel s) as [v r0| |] eqn:Hp; try done.
    apply parse_length in Hp.
    destruct (skipWs r0) as [|c r1] eqn:Hr0; [done|].
    apply skipWs_cons_length in Hr0.
    destruct (c =? 44).
    { intros He%parsingMap_fuel. revert He. apply IHe. lia. }
    by destruct (c =? 93).
  - intros s Hf. simpl.
    destruct (skipWs s) as [|q s0] eqn:Hs; [done|].
    apply skipWs_cons_length in Hs.
    destruct (q =? 34); [|done].
    destruct (lexString s0) as [[k r1]|] eqn:Hk; [|done].
    apply lexString_length in Hk.
    destruct (skipWs r1) as [|c1 r2] eqn:Hr1; [done|].
    apply skipWs_cons_length in Hr1.
    destruct (c1 =? 58); [|done].
    pose proof (IHv r2 ltac:(lia)) as Hv.
    destruct (parseValue fuel r2) as [v r3| |] eqn:Hp; try done.
    apply parse_length in Hp.
    destruct (skipWs r3) as [|c3 r4] eqn:Hr3; [done|].
    apply skipWs_cons_length in Hr3.
    destruct (c3 =? 44).
    { intros Hm%parsingMap_fuel. revert Hm. apply IHm. lia. }
    by destruct (c3 =? 125).
Qed.

Lemma parseValue_fuel (s : jsstring) :
  parseValue (fuelFor s) s ≠ OutOfFuel.
Proof. apply parse_fuel. unfold fuelFor. lia. Qed.

(** [JSON.parse] fails exactly on a syntax error or on text after the
    value. *)
Lemma JSON_parse_None (s : jsstring) :
  JSON_parse s = None ↔
  parseValue (fuelFor s) s = Malformed ∨
  ∃ v r, parseValue (fuelFor s) s = Parsed v r ∧ skipWs r ≠ [].
Proof.
  unfold JSON_parse. pose proof (parseValue_fuel s) as Hf.
  destruct (parseValue (fuelFor s) s) as [v r| |].
  - destruct (skipWs r) as [|c r'] eqn:Hr.
    + split; [done|]. intros [?|(v' & r'' & ? & Hne)]; [done|].
      by simplify_eq.
    + split; [|done]. intros _. right. exists v, r. by rewrite Hr.
  - split; auto.
  - done.
Qed.

(** A text whose first character is an opening brace parses to an
    object, one whose first character is an opening bracket to an
    array. *)
Lemma parseValue_brace (fuel : nat) (s r : jsstring) (v : value jsstring) :
  startsWithChar 123 s = true → parseValue fuel s = Parsed v r →
  ∃ props, v = VObject props.
Proof.
  destruct fuel as [|fuel]; [done|].
  destruct s as [|c s]; [done|]. simpl. intros ->%N.eqb_eq. simpl.
  destruct (skipWs s) as [|c' s1]; [done|].
  destruct (c' =? 125); [intros; simplify_eq; by eexists|].
  intros (ms & _ & ->)%parsingMap_Parsed. by eexists.
Qed.

Lemma parseValue_bracket (fuel : nat) (s r : jsstring) (v : value jsstring) :
  startsWithChar 91 s = true → parseValue fuel s = Parsed v r →
  ∃ xs, v = VArray xs.
Proof.
  destruct fuel as [|fuel]; [done|].
  destruct s as [|c s]; [done|]. simpl. intros ->%N.eqb_eq. simpl.
  destruct (skipWs s) as [|c' s1]; [done|].
  destruct (c' =? 93); [intros; simplify_eq; by eexists|].
  intros (ms & _ & ->)%parsingMap_Parsed. by eexists.
Qed.

Lemma JSON_parse_Some (s : jsstring) (v : value jsstring) :
  JSON_parse s = Some v → ∃ r, parseValue (fuelFor s) s = Parsed v r.
Proof.
  unfold JSON_parse. destruct (parseValue (fuelFor s) s) as [v' r| |];
    [|done..].
  destruct (skipWs r); intros; simplify_eq. by eexists.
Qed.

(** What the guard of [normalizeQuery] lets through parses, if at all,
    to an object or an array. *)
Lemma JSON_parse_bracketed (s : jsstring) (v : value jsstring) :
  bracketed s = true → JSON_parse s = Some v →
  (∃ props, v = VObject props) ∨ (∃ xs, v = VArray xs).
Proof.
  unfold bracketed. intros Hb Hv.
  apply orb_true_iff in Hb as [[Hb _]%andb_true_iff|[Hb _]%andb_true_iff].
  - left. apply JSON_parse_Some in Hv as [r Hv]. by eapply parseValue_brace.
  - right. apply JSON_parse_Some in Hv as [r Hv]. by eapply parseValue_bracket.
Qed.

(** ** Query normalisation *)

Lemma bracketed_truthy (s : jsstring) : bracketed s = true → truthy s = true.
Proof. by destruct s. Qed.

Lemma normalizeQuery_trimmed (query : jsstring) :
  trim query = query →
  normalizeQuery query =
    if bracketed query then
      match JSON_parse query with
      | Some parsed => default query (recoverQuery query parsed)
      | None => query
      end
    else query.
Proof.
  intros Ht. unfold normalizeQuery. rewrite Ht.
  destruct query as [|c r]; [done|]. done.
Qed.

(** C9: a query that passes the bracket guard of [normalizeQuery] and
    parses as JSON parses to an object or an array and never to a
    string, so the branch for a parsed string is not taken: the result of
    the normalisation is the trimmed nested field [query] (the object
    path) or the trimmed query itself. *)
Theorem parsed_string_branch_unreachable (query : jsstring)
    (parsed : value jsstring) :
  bracketed (trim query) = true →
  JSON_parse (trim query) = Some parsed →
  isString parsed = false ∧
  ((∃ props, parsed = VObject props) ∨ (∃ xs, parsed = VArray xs)) ∧
  ((∃ nestedQuery, getProp parsed (js "query") = VString nestedQuery ∧
      normalizeQuery query = trim nestedQuery) ∨
   normalizeQuery query = trim query).
Proof.
  intros Hb Hp. pose proof (JSON_parse_bracketed _ _ Hb Hp) as Hshape.
  split_and!; [by destruct Hshape as [[? ->]|[? ->]]|done|].
  unfold normalizeQuery. rewrite (bracketed_truthy _ Hb), Hb, Hp. simpl.
  destruct Hshape as [[props ->]|[xs ->]]; [|by right].
  unfold recoverQuery.
  destruct (getProp (VObject props) (js "query")) as [| | | |n| |] eqn:Hq;
    try by right.
  destruct (0 <? length (trim n))%nat; [|by right].
  left. by exists n.
Qed.

Lemma parsed_string_branch_unreachable_witness :
  isString catsObject = false ∧
  ((∃ props, catsObject = VObject props) ∨ (∃ xs, catsObject = VArray xs)) ∧
  ((∃ nestedQuery,
      getProp catsObject (js "query") = VString nestedQuery ∧
      normalizeQuery wrappedCats = trim nestedQuery) ∨
   normalizeQuery wrappedCats = trim wrappedCats).
Proof.
  apply (parsed_string_branch_unreachable wrappedCats catsObject);
    vm_compute; reflexivity.
Defined.

(** Against C4 as stated: the query whose nested field [query] is one
    space stays as it is, although the nested field is a non-empty
    string whose trimmed value is the empty string. *)
Lemma blank_nested_query_counterexample :
  trim blankNestedQuery = blankNestedQuery ∧
  normalizeQuery blankNestedQuery = blankNestedQuery ∧
  ¬ recoversNonEmptyNestedQuery blankNestedQuery.
Proof.
  split_and!; [by vm_compute..|].
  intros Hclaim.
  specialize (Hclaim [(js "query", VString [32])] [32]).
  by vm_compute in Hclaim; specialize (Hclaim eq_refl eq_refl ltac:(done)).
Qed.

(** C4 (amended): on a trimmed query, normalisation is a total function
    with these results. A query outside the bracket guard, or one that
    does not parse, is returned as it is. A query that parses to an
    object whose field [query] is a string that is non-empty after
    trimming becomes that field, trimmed. A parsed string would be
    used as the result (no query parses to one, see C9). Every other
    parsed shape leaves the query as it is. *)
Theorem normalizeQuery_recovery (query : jsstring) :
  trim query = query →
  (bracketed query = false → normalizeQuery query = query) ∧
  (JSON_parse query = None → normalizeQuery query = query) ∧
  (∀ parsed,
     bracketed query = true → JSON_parse query = Some parsed →
     (∀ s, parsed = VString s → normalizeQuery query = s) ∧
     (∀ nestedQuery,
        getProp parsed (js "query") = VString nestedQuery →
        trim nestedQuery ≠ [] →
        normalizeQuery query = trim nestedQuery) ∧
     (isString parsed = false →
      (∀ nestedQuery,
         getProp parsed (js "query") = VString nestedQuery →
         trim nestedQuery = []) →
      normalizeQuery query = query)).
Proof.
  intros Ht. rewrite (normalizeQuery_trimmed _ Ht). split_and!.
  - by intros ->.
  - intros ->. by destruct (bracketed query).
  - intros parsed Hb Hp. rewrite Hb, Hp.
    pose proof (JSON_parse_bracketed _ _ Hb Hp) as Hshape. split_and!.
    + intros s ->. by destruct Hshape as [[? ?]|[? ?]].
    + intros n Hn Hne. destruct Hshape as [[props ->]|[xs ->]]; [|done].
      unfold recoverQuery. rewrite Hn.
      destruct (trim n); [done|]. done.
    + intros _ Hblank. destruct Hshape as [[props ->]|[xs ->]]; [|done].
      unfold recoverQuery.
      destruct (getProp (VObject props) (js "query")) as [| | | |n| |] eqn:Hq;
        try done.
      by rewrite (Hblank n eq_refl).
Qed.

Lemma normalizeQuery_recovery_witness :
  normalizeQuery (jsq "{'query':' cats '}") = js "cats".
Proof.
  pose proof (normalizeQuery_recovery (jsq "{'query':' cats '}") eq_refl)
    as (_ & _ & Hparsed).
  destruct (Hparsed (VObject [(js "query", VString (js " cats "))])
              eq_refl eq_refl) as (_ & Hnested & _).
  exact (Hnested (js " cats ") eq_refl ltac:(done)).
Defined.

(** ** Locale resolution *)

Lemma toLowerCase_nil_not_supported :
  bool_decide ([] ∈ SUPPORTED_LANGS) = false.
Proof. by vm_compute. Qed.

(** C5: language resolution is a total function. It returns the
    lower-cased primary subtag of the locale (the text before the first
    [-] or [_]) when that is one of the supported languages, and the
    default locale [en] otherwise, also for an empty or a missing locale;
    [pt-BR] resolves to [pt] and [xx-YY] to [en]. *)
Theorem resolveLanguage_primary_subtag :
  (∀ locale : jsstring,
     let subtag := toLowerCase (beforeFirst subtagSeparator locale) in
     resolveLanguage (Some locale) =
       if bool_decide (subtag ∈ SUPPORTED_LANGS) then subtag else js "en") ∧
  resolveLanguage None = js "en" ∧
  resolveLanguage (Some []) = js "en" ∧
  resolveLanguage (Some (js "pt-BR")) = js "pt" ∧
  resolveLanguage (Some (js "xx-YY")) = js "en".
Proof.
  split_and!; try by vm_compute.
  intros locale subtag. unfold resolveLanguage.
  destruct (truthy locale) eqn:Ht; simpl negb; cbv iota.
  - fold subtagSeparator. rewrite head_split.
    change (toLowerCase <$> Some ?x) with (Some (toLowerCase x)).
    fold subtag. cbv beta iota. generalize subtag. intros [|x y]; [|done].
    by rewrite toLowerCase_nil_not_supported.
  - destruct locale; [by vm_compute|done].
Qed.

(** ** Error classification *)

(** Against C6 as stated: the message for a 401 is not the one the
    specification quotes. *)
Lemma authentication_message_counterexample :
  ok unauthorized = false ∧
  message (throwForErrorResponse unauthorized)
  ≠ js "Pixabay authentication failed. Verify the API key.".
Proof. split; by vm_compute. Qed.

(** C6 (amended): for a response that is not a success, both searches
    throw the error of [throwForErrorResponse], an [McpError] with code
    [InternalError]. For status 401 or 403 its message is
    [Pixabay authentication failed. Verify PIXABAY_API_KEY.]; for status
    429 it is the fixed rate-limit message, whatever the body; for any
    other status it gives the status code and then the trimmed body
    text, or the status text when the body cannot be read or is blank. *)
Theorem error_classification `{Host} (response : Response) :
  ok response = false →
  let e := throwForErrorResponse response in
  searchImages response = Throw (Mcp e) ∧
  searchVideos response = Throw (Mcp e) ∧
  errorCode e = InternalError ∧
  (status response = 401%nat ∨ status response = 403%nat →
   message e = js "Pixabay authentication failed. Verify PIXABAY_API_KEY.") ∧
  (status response = 429%nat →
   message e
   = js "Pixabay rate limit exceeded. Please wait a moment before trying again.") ∧
  (status response ≠ 401%nat → status response ≠ 403%nat →
   status response ≠ 429%nat →
   (∀ body, text response = Some body → trim body ≠ [] →
      message e = js "Pixabay request failed (" ++ decimal (status response)
                  ++ js "): " ++ trim body) ∧
   (text response = None ∨ (∃ body, text response = Some body ∧ trim body = []) →
      message e = js "Pixabay request failed (" ++ decimal (status response)
                  ++ js "): " ++ statusText response)).
Proof.
  intros Hok e. split_and!.
  - unfold searchImages. by rewrite Hok.
  - unfold searchVideos. by rewrite Hok.
  - unfold e, throwForErrorResponse. by repeat case_match.
  - unfold e, throwForErrorResponse. intros [->| ->]; done.
  - unfold e, throwForErrorResponse. by intros ->.
  - intros H401 H403 H429. unfold e, throwForErrorResponse.
    rewrite !bool_decide_eq_false_2 by done. simpl.
    unfold safeReadError. split.
    + intros body -> Hne. by destruct (trim body).
    + intros [->|(body & -> & ->)]; done.
Qed.

Lemma error_classification_witness :
  message (throwForErrorResponse serverError)
  = js "Pixabay request failed (500): Internal Server Error".
Proof.
  pose proof (@error_classification exampleHost serverError eq_refl)
    as (_ & _ & _ & _ & _ & Hother).
  destruct (Hother ltac:(done) ltac:(done) ltac:(done)) as [_ Hblank].
  apply Hblank. right. by exists (js "  ").
Defined.

(** ** Own keys of an object *)

Lemma elem_of_createdKeys {num} (k : jsstring) (seen : list jsstring)
    (props : list (jsstring * value num)) :
  k ∈ createdKeys seen props ↔ k ∈ (fst <$> props) ∧ k ∉ seen.
Proof.
  revert seen. induction props as [|[k' v] props IH]; intros seen; simpl.
  - rewrite elem_of_nil. tauto.
  - case_decide as Hseen.
    + rewrite IH, elem_of_cons. split; [tauto|].
      intros [[->|?] ?]; tauto.
    + rewrite !elem_of_cons, IH, elem_of_cons. split.
      * intros [->|[? ?]]; tauto.
      * destruct (decide (k = k')); tauto.
Qed.

Lemma elem_of_insertIndex (x k : jsstring * N) (l : list (jsstring * N)) :
  x ∈ insertIndex k l ↔ x = k ∨ x ∈ l.
Proof.
  induction l as [|y l IH]; simpl.
  - rewrite elem_of_cons, elem_of_nil. tauto.
  - destruct (k.2 <=? y.2); rewrite !elem_of_cons; [tauto|].
    rewrite IH. tauto.
Qed.

Lemma elem_of_sorted_indices (x : jsstring * N) (l : list (jsstring * N)) :
  x ∈ foldr insertIndex [] l ↔ x ∈ l.
Proof.
  induction l as [|y l IH]; simpl; [done|].
  by rewrite elem_of_insertIndex, IH, elem_of_cons.
Qed.

(** [ownKeys] enumerates exactly the keys of the property list. *)
Lemma elem_of_ownKeys {num} (k : jsstring)
    (props : list (jsstring * value num)) :
  k ∈ ownKeys props ↔ k ∈ (fst <$> props).
Proof.
  unfold ownKeys. rewrite elem_of_app, list_elem_of_fmap, list_elem_of_filter.
  setoid_rewrite elem_of_sorted_indices.
  setoid_rewrite list_elem_of_omap.
  setoid_rewrite elem_of_createdKeys.
  split.
  - intros [([k' n] & -> & k'' & [Hk _] & Hidx)|[_ [Hk _]]]; [|done].
    destruct (arrayIndex k''); by simplify_eq/=.
  - intros Hk. destruct (arrayIndex k) as [n|] eqn:Hidx.
    + left. exists (k, n). split; [done|]. exists k.
      rewrite Hidx. split; [|done]. split; [done|]. apply not_elem_of_nil.
    + right. split; [done|]. split; [done|]. apply not_elem_of_nil.
Qed.

(** ** Input validation *)

Lemma integerValue_isInteger (n : number) :
  Number_isInteger n = true ↔ is_Some (integerValue n).
Proof.
  destruct n as [| |m e]; simpl; try (split; [done|by intros [? ?]]).
  destruct (0 <=? e)%Z; simpl; [split; eauto|].
  destruct (m `mod` 2 ^ (- e) =? 0)%Z; (split; [try done; eauto|]);
    eauto; by intros [? ?].
Qed.

Lemma integerValue_cmp (m e z k : Z) :
  integerValue (Dyadic m e) = Some z → cmpZ m e k = (z ?= k)%Z.
Proof.
  unfold cmpZ. simpl. destruct (0 <=? e)%Z eqn:He; [by intros [= <-]|].
  destruct (m `mod` 2 ^ (- e) =? 0)%Z eqn:Hm; [|done]. intros [= Hz].
  apply Z.eqb_eq in Hm. apply Z.leb_gt in He.
  assert (0 < 2 ^ (- e))%Z as Hp by (apply Z.pow_pos_nonneg; lia).
  rewrite (Z.div_mod m (2 ^ (- e))) at 1 by lia.
  rewrite Hm, Z.add_0_r, (Z.mul_comm (2 ^ (- e))), Hz.
  destruct (Z.compare_spec (z * 2 ^ (- e)) (k * 2 ^ (- e))),
    (Z.compare_spec z k); try done; nia.
Qed.

Lemma integerValue_ltZ (n : number) (z k : Z) :
  integerValue n = Some z → ltZ n k = bool_decide (z < k)%Z.
Proof.
  destruct n as [| |m e]; try done. intros Hz. simpl.
  rewrite (integerValue_cmp _ _ _ k Hz).
  destruct (Z.compare_spec z k); case_bool_decide; done || lia.
Qed.

Lemma integerValue_gtZ (n : number) (z k : Z) :
  integerValue n = Some z → gtZ n k = bool_decide (k < z)%Z.
Proof.
  destruct n as [| |m e]; try done. intros Hz. simpl.
  rewrite (integerValue_cmp _ _ _ k Hz).
  destruct (Z.compare_spec z k); case_bool_decide; done || lia.
Qed.

Lemma integerValue_not_NaN (n : number) :
  is_Some (integerValue n) → isNaN n = false.
Proof. destruct n; try done. by intros [? ?]. Qed.

Lemma issues_cons (raw : value number) (c : Constraint)
    (l : list Constraint) :
  issueOf raw <$> filter (λ c, violated raw c) (c :: l)
  = when (violated raw c) (issueOf raw c)
    ++ (issueOf raw <$> filter (λ c, violated raw c) l).
Proof.
  rewrite filter_cons. unfold when.
  destruct (violated raw c); by case_decide.
Qed.

Lemma issues_nil (raw : value number) :
  issueOf raw <$> filter (λ c, violated raw c) [] = [].
Proof. done. Qed.

Lemma issues_app (raw : value number) (l k : list Constraint) :
  issueOf raw <$> filter (λ c, violated raw c) (l ++ k)
  = (issueOf raw <$> filter (λ c, violated raw c) l)
    ++ (issueOf raw <$> filter (λ c, violated raw c) k).
Proof. by rewrite filter_app, fmap_app. Qed.

Lemma ltb_1_nil (s : jsstring) : (length s <? 1)%nat = bool_decide (s = []).
Proof. by destruct s. Qed.

Lemma ltb_bool_decide (a b : nat) : (a <? b)%nat = bool_decide (a < b)%nat.
Proof. destruct (Nat.ltb_spec a b); case_bool_decide; done || lia. Qed.

Lemma query_issues (props : list (jsstring * value number)) :
  let raw := VObject props in
  (querySchema (getProp raw (js "query"))).1
  = issueOf raw <$> filter (λ c, violated raw c)
                           [QueryIsString; QueryNotEmpty; QueryAtMost100].
Proof.
  intros raw. rewrite !issues_cons, issues_nil.
  unfold querySchema, violated, issueOf.
  destruct (getProp raw (js "query")) as [| | | |q| |]; try done.
  simpl fst. rewrite ltb_1_nil, ltb_bool_decide. simpl. by rewrite app_nil_r.
Qed.

Lemma orientation_issues (props : list (jsstring * value number)) :
  let raw := VObject props in
  (orientationSchema (getProp raw (js "orientation"))).1
  = issueOf raw <$> filter (λ c, violated raw c)
                           [OrientationIsString; OrientationIsListed].
Proof.
  intros raw. rewrite !issues_cons, issues_nil.
  unfold orientationSchema, violated, issueOf.
  destruct (getProp raw (js "orientation")) as [| | | |o| |]; try done.
  simpl. unfold lookupEnum.
  destruct (list_find (λ p, p.1 = o) orientationValues) as [[i [o' x]]|] eqn:Hf;
    simpl.
  - apply list_find_Some in Hf as (Hi & Ho & _). simpl in Ho. subst o'.
    apply list_elem_of_lookup_2 in Hi.
    rewrite bool_decide_eq_true_2; [done|].
    change (o ∈ fst <$> orientationValues).
    apply list_elem_of_fmap. by exists (o, x).
  - apply list_find_None in Hf.
    rewrite bool_decide_eq_false_2; [done|].
    change (o ∉ fst <$> orientationValues).
    intros ([o' x] & -> & Hin)%list_elem_of_fmap.
    by eapply Forall_forall in Hf.
Qed.

Lemma safesearch_issues (props : list (jsstring * value number)) :
  let raw := VObject props in
  (safesearchSchema (getProp raw (js "safesearch"))).1
  = issueOf raw <$> filter (λ c, violated raw c) [SafesearchIsBoolean].
Proof.
  intros raw. rewrite !issues_cons, issues_nil.
  unfold safesearchSchema, violated, issueOf.
  by destruct (getProp raw (js "safesearch")) as [| | | |o| |].
Qed.

Lemma per_page_issues (props : list (jsstring * value number)) :
  let raw := VObject props in
  (per_pageSchema (getProp raw (js "per_page"))).1
  = issueOf raw <$> filter (λ c, violated raw c)
      [PerPageIsNumber; PerPageIsInteger; PerPageAtLeast3; PerPageAtMost20].
Proof.
  intros raw. rewrite !issues_cons, issues_nil.
  unfold per_pageSchema, violated, issueOf.
  destruct (getProp raw (js "per_page")) as [| | |n| | |]; try done.
  destruct n as [|neg|m e]; [done|by destruct neg|].
  simpl isNaN. cbv iota. simpl fst. simpl negb. simpl andb.
  change (Z.of_nat serverConfig.maxPerPage) with 20%Z.
  change (js "per_page must be between 3 and "
          ++ decimal serverConfig.maxPerPage ++ js ".")
    with (js "per_page must be between 3 and 20.").
  simpl. by rewrite app_nil_r.
Qed.

Lemma strict_issues (props : list (jsstring * value number)) :
  let raw := VObject props in
  when (negb (bool_decide (filter (λ k, k ∉ shapeKeys) (ownKeys props) = [])))
       {| code := unrecognized_keys (filter (λ k, k ∉ shapeKeys) (ownKeys props));
          path := []; custom := None |}
  = issueOf raw <$> filter (λ c, violated raw c) [NoExtraFields].
Proof. intros raw. by rewrite !issues_cons, issues_nil, app_nil_r. Qed.

(** The issues the schema collects are those of the violated
    constraints, in the order of the table. *)
Lemma schema_issues (raw : value number) :
  match searchImagesInputSchema raw with
  | inl issues => issues = issueOf raw <$> violations raw
  | inr _ => violations raw = []
  end.
Proof.
  unfold violations, constraints.
  destruct raw as [| | | | | |props]; try done.
  change [PayloadIsObject; QueryIsString; QueryNotEmpty; QueryAtMost100;
          OrientationIsString; OrientationIsListed; SafesearchIsBoolean;
          PerPageIsNumber; PerPageIsInteger; PerPageAtLeast3;
          PerPageAtMost20; NoExtraFields]
    with ([PayloadIsObject]
          ++ [QueryIsString; QueryNotEmpty; QueryAtMost100]
          ++ [OrientationIsString; OrientationIsListed]
          ++ [SafesearchIsBoolean]
          ++ [PerPageIsNumber; PerPageIsInteger; PerPageAtLeast3;
              PerPageAtMost20]
          ++ [NoExtraFields]).
  assert (issueOf (VObject props) <$>
            filter (λ c, violated (VObject props) c)
              ([PayloadIsObject]
               ++ [QueryIsString; QueryNotEmpty; QueryAtMost100]
               ++ [OrientationIsString; OrientationIsListed]
               ++ [SafesearchIsBoolean]
               ++ [PerPageIsNumber; PerPageIsInteger; PerPageAtLeast3;
                   PerPageAtMost20]
               ++ [NoExtraFields])
          = (querySchema (getProp (VObject props) (js "query"))).1
            ++ (orientationSchema (getProp (VObject props) (js "orientation"))).1
            ++ (safesearchSchema (getProp (VObject props) (js "safesearch"))).1
            ++ (per_pageSchema (getProp (VObject props) (js "per_page"))).1
            ++ when (negb (bool_decide
                       (filter (λ k, k ∉ shapeKeys) (ownKeys props) = [])))
                 {| code := unrecognized_keys
                              (filter (λ k, k ∉ shapeKeys) (ownKeys props));
                    path := []; custom := None |}) as Hissues.
  { rewrite !issues_app, <- query_issues, <- orientation_issues,
      <- safesearch_issues, <- per_page_issues, <- strict_issues. done. }
  unfold searchImagesInputSchema.
  match goal with
  | |- context [match ?l with [] => _ | _ :: _ => _ end] =>
      destruct l as [|i issues] eqn:Hi
  end.
  - apply fmap_nil_inv in Hissues.
    rewrite Hissues.
    by repeat match goal with
       | |- context [match ?x with Some _ => _ | None => _ end] => destruct x
       end.
  - by rewrite Hissues.
Qed.

Lemma filter_nil_iff {A} (P : A → Prop) `{∀ x, Decision (P x)} (l : list A) :
  filter P l = [] ↔ ∀ x, x ∈ l → ¬ P x.
Proof.
  split.
  - intros Hnil x Hx HP. by eapply filter_nil_not_elem_of.
  - intros Hall. apply elem_of_nil_inv. intros x [HP Hx]%list_elem_of_filter.
    by eapply Hall.
Qed.

Lemma violations_nil (raw : value number) :
  violations raw = [] ↔ ∀ c, violated raw c = false.
Proof.
  unfold violations. rewrite filter_nil_iff. split.
  - intros Hall c. specialize (Hall c).
    destruct (violated raw c); [|done]. exfalso. apply Hall; [|done].
    unfold constraints. destruct c; apply list_elem_of_In; simpl; tauto.
  - intros Hall c _. rewrite Hall. by intros [].
Qed.

Lemma extraFields_nil (props : list (jsstring * value number)) :
  extraFields (VObject props) = [] ↔
  ∀ k, k ∈ (fst <$> props) →
       k ∈ [js "query"; js "orientation"; js "safesearch"; js "per_page"].
Proof.
  unfold extraFields. rewrite filter_nil_iff.
  setoid_rewrite elem_of_ownKeys. split.
  - intros Hall k Hk. specialize (Hall k Hk).
    by destruct (decide (k ∈ [js "query"; js "orientation";
                               js "safesearch"; js "per_page"])).
  - intros Hall k Hk Hn. by apply Hn, Hall.
Qed.

(** No constraint of the table is violated exactly when the payload is
    valid in the words of the specification (with the condition on
    [safesearch]). *)
Lemma violations_valid (raw : value number) :
  violations raw = [] ↔ validPayload raw.
Proof.
  rewrite violations_nil. split.
  - intros Hall.
    pose proof (Hall PayloadIsObject) as Hobj.
    pose proof (Hall QueryIsString) as Hqs.
    pose proof (Hall QueryNotEmpty) as Hqn.
    pose proof (Hall QueryAtMost100) as Hqm.
    pose proof (Hall OrientationIsString) as Hos.
    pose proof (Hall OrientationIsListed) as Hol.
    pose proof (Hall SafesearchIsBoolean) as Hsb.
    pose proof (Hall PerPageIsNumber) as Hpn.
    pose proof (Hall PerPageIsInteger) as Hpi.
    pose proof (Hall PerPageAtLeast3) as Hp3.
    pose proof (Hall PerPageAtMost20) as Hp20.
    pose proof (Hall NoExtraFields) as Hex.
    clear Hall. unfold violated in *.
    destruct raw as [| | | | | |props]; try done.
    apply andb_false_iff in Hqs as [?|Hqs]; [done|].
    set (raw := VObject props) in *.
    split; [split_and!|].
    + destruct (getProp _ (js "query")) as [| | | |q| |]; try done.
      exists q. split; [done|].
      apply bool_decide_eq_false in Hqn, Hqm.
      destruct (trim q); simpl in *; [done|lia].
    + destruct (getProp _ (js "orientation")) as [| | | |o| |]; try done;
        [by left|]. right. exists o. split; [done|].
      apply negb_false_iff in Hol. by apply bool_decide_eq_true in Hol.
    + destruct (getProp _ (js "per_page")) as [| | |n| | |]; try done;
        [by left|]. right. rewrite Hpn in Hpi. simpl in Hpi.
      apply negb_false_iff, integerValue_isInteger in Hpi as [z Hz].
      exists n, z. split_and!; [done..| |].
      * rewrite (integerValue_ltZ _ _ _ Hz) in Hp3.
        apply bool_decide_eq_false in Hp3. lia.
      * rewrite (integerValue_gtZ _ _ _ Hz) in Hp20.
        apply bool_decide_eq_false in Hp20. lia.
    + exists props. split; [done|]. apply extraFields_nil.
      apply negb_false_iff in Hex. by apply bool_decide_eq_true in Hex.
    + destruct (getProp _ (js "safesearch")) as [| |b| | | |]; try done;
        [by left|]. right. by exists b.
  - intros [((q & Hq & Hlen) & Ho & Hp & props & -> & Hkeys) Hs] c.
    destruct c; unfold violated.
    + done.
    + by rewrite Hq.
    + rewrite Hq. apply bool_decide_eq_false. intros Hnil.
      rewrite Hnil in Hlen. simpl in Hlen. lia.
    + rewrite Hq. apply bool_decide_eq_false. lia.
    + destruct Ho as [->|(o & -> & _)]; done.
    + destruct Ho as [->|(o & -> & Hin)]; [done|].
      by rewrite bool_decide_eq_true_2.
    + destruct Hs as [->|(b & ->)]; done.
    + destruct Hp as [->|(n & z & -> & Hz & _)]; [done|].
      by apply integerValue_not_NaN.
    + destruct Hp as [->|(n & z & -> & Hz & _)]; [done|].
      rewrite integerValue_not_NaN by done. simpl.
      apply negb_false_iff, integerValue_isInteger. by eexists.
    + destruct Hp as [->|(n & z & -> & Hz & Hr)]; [done|].
      rewrite (integerValue_ltZ _ _ _ Hz). apply bool_decide_eq_false. lia.
    + destruct Hp as [->|(n & z & -> & Hz & Hr)]; [done|].
      rewrite (integerValue_gtZ _ _ _ Hz). apply bool_decide_eq_false. lia.
    + apply negb_false_iff, bool_decide_eq_true. by apply extraFields_nil.
Qed.

Lemma schema_inl_nonempty (raw : value number) (issues : list ZodIssue) :
  searchImagesInputSchema raw = inl issues → issues ≠ [].
Proof.
  destruct raw as [| | | | | |props]; try by intros [= <-].
  unfold searchImagesInputSchema.
  match goal with
  | |- context [match ?l with [] => _ | _ :: _ => _ end] =>
      destruct l as [|i issues'] eqn:Hi
  end; [|by intros [= <-]].
  apply app_eq_nil in Hi as [Hq Hi]. apply app_eq_nil in Hi as [Ho Hi].
  apply app_eq_nil in Hi as [Hs Hi]. apply app_eq_nil in Hi as [Hp _].
  assert (is_Some (querySchema (getProp (VObject props) (js "query"))).2)
    as [q ->].
  { revert Hq. unfold querySchema. by case_match. }
  assert (is_Some (orientationSchema
                     (getProp (VObject props) (js "orientation"))).2)
    as [o ->].
  { revert Ho. unfold orientationSchema. by repeat case_match. }
  assert (is_Some (safesearchSchema
                     (getProp (VObject props) (js "safesearch"))).2)
    as [s ->].
  { revert Hs. unfold safesearchSchema. by case_match. }
  assert (is_Some (per_pageSchema (getProp (VObject props) (js "per_page"))).2)
    as [p ->].
  { revert Hp. unfold per_pageSchema. by repeat case_match. }
  done.
Qed.

(** The data of a successful parse. *)
Lemma schema_data (raw : value number) (input : SearchImagesInput) :
  searchImagesInputSchema raw = inr input →
  ∃ q, getProp raw (js "query") = VString q ∧ query input = trim q.
Proof.
  destruct raw as [| | | | | |props]; try done.
  unfold searchImagesInputSchema. intros Hs.
  repeat match type of Hs with
         | context [match ?x with _ => _ end] => destruct x eqn:?
         end; simplify_eq.
  unfold querySchema in *. case_match; simplify_eq/=. by eexists.
Qed.

(** Against C3 as stated: a payload with a query and a [safesearch]
    that is not a boolean meets every condition the specification lists,
    and is rejected. *)
Lemma safesearch_counterexample :
  validAsClaimed catsYes ∧
  ∀ input, searchImagesInputSchema catsYes ≠ inr input.
Proof.
  split; [|done]. unfold validAsClaimed, absent. split_and!.
  - exists (js "cats"). split; [done|]. vm_compute. lia.
  - by left.
  - by left.
  - eexists. split; [done|]. intros k Hk.
    apply list_elem_of_In in Hk. apply list_elem_of_In.
    simpl in *. tauto.
Qed.

(** C3 (amended): validation succeeds exactly when the payload is an
    object whose trimmed query has 1 to 100 characters, whose orientation
    if present is one of the three values, whose [safesearch] if present
    is a boolean, whose [per_page] if present is an integer in [3,20],
    and which has no other field; the request then carries the trimmed
    query. Otherwise the handler rejects the call, before awaiting any
    search, with an [InvalidParams] error whose message joins the
    messages of all violated constraints, in order, with a semicolon and
    a space. *)
Theorem input_validation `{Host} (rawInput meta : value number) :
  ((∃ input, searchImagesInputSchema rawInput = inr input)
   ↔ validPayload rawInput) ∧
  (∀ input, searchImagesInputSchema rawInput = inr input →
     ∃ q, getProp rawInput (js "query") = VString q ∧ query input = trim q) ∧
  (¬ validPayload rawInput →
     violations rawInput ≠ [] ∧
     searchImagesInputSchema rawInput
     = inl (issueOf rawInput <$> violations rawInput) ∧
     handler rawInput meta
     = Rejects {| errorCode := InvalidParams;
                  message :=
                    join (js "; ")
                         ((λ c, issueMessage (issueOf rawInput c))
                            <$> violations rawInput) |}).
Proof.
  pose proof (schema_issues rawInput) as Hissues.
  pose proof (schema_inl_nonempty rawInput) as Hne.
  rewrite <- violations_valid. split_and!.
  - destruct (searchImagesInputSchema rawInput) as [issues|input].
    + split; [by intros [? ?]|]. intros Hnil. subst issues.
      rewrite Hnil in Hne. by destruct (Hne [] eq_refl).
    + split; [done|]. by exists input.
  - apply schema_data.
  - intros Hinvalid. unfold handler.
    destruct (searchImagesInputSchema rawInput) as [issues|input]; [|done].
    subst issues. split_and!; [done..|].
    by rewrite <- list_fmap_compose.
Qed.

Lemma input_validation_witness :
  handler (H:=exampleHost) blankFar VUndefined
  = Rejects {| errorCode := InvalidParams;
               message := js "Please provide a search query.; Invalid input; per_page must be between 3 and 20." |}.
Proof.
  destruct (@input_validation exampleHost blankFar VUndefined)
    as (Hvalid & _ & Hreject).
  destruct Hreject as (_ & _ & ->); [|done].
  intros [input Hinput]%Hvalid. discriminate Hinput.
Defined.

(** ** The summary line *)

(** C7: the summary the image tool returns is a function of the number
    [N] of results and of the normalised query alone. For [N > 0] it is
    [Found N Pixabay image(s) for "query".], with [image] in the
    singular exactly when [N = 1]; for [N = 0] it is
    [No Pixabay images found for "query". Try a different description or
    add more detail.]; the query is the normalised query the search was
    called with. *)
Theorem summary_of_count_and_query `{Host} (rawInput meta : value number)
    (searchResult : PixabayImageSearchResult) (tool : ToolResult) :
  resume (handler rawInput meta) searchResult = Some tool →
  let N := length (ImageSearch.results searchResult) in
  ∃ request params,
    searchImagesInputSchema rawInput = inr request ∧
    awaited (handler rawInput meta) = Some params ∧
    query (input params) = normalizeQuery (query request) ∧
    Content.resultCount (structuredContent tool) = N ∧
    (N = 0%nat →
     content tool
     = js "No Pixabay images found for " ++ [dquote]
       ++ normalizeQuery (query request) ++ [dquote]
       ++ js ". Try a different description or add more detail.") ∧
    (N = 1%nat →
     content tool
     = js "Found 1 Pixabay image for " ++ [dquote]
       ++ normalizeQuery (query request) ++ [dquote] ++ js ".") ∧
    (1 < N →
     content tool
     = js "Found " ++ decimal N ++ js " Pixabay images for " ++ [dquote]
       ++ normalizeQuery (query request) ++ [dquote] ++ js ".")%nat.
Proof.
  intros Htool N. unfold handler in *.
  destruct (searchImagesInputSchema rawInput) as [issues|request]; [done|].
  simpl in Htool. injection Htool as <-. eexists _, _.
  split_and!; [done..| | |];
    intros HN; cbn [content structuredContent]; unfold summaryOf;
    cbn [toStructuredContent Content.resultCount Content.query query];
    fold N.
  - by rewrite HN.
  - by rewrite HN.
  - destruct N as [|[|n]]; try lia.
    change (0 <? S (S n))%nat with true.
    rewrite bool_decide_eq_false_2 by lia. cbv iota.
    do 2 f_equal.
Qed.

Lemma summary_of_count_and_query_witness :
  ∃ tool,
    resume (handler (H:=exampleHost) sunsetInput VUndefined) threeOf120
    = Some tool ∧
    content tool = jsq "Found 3 Pixabay images for 'sunset'.".
Proof.
  eexists. split; [reflexivity|].
  destruct (@summary_of_count_and_query exampleHost sunsetInput VUndefined
              threeOf120 _ eq_refl)
    as (request & params & [= <-] & _ & _ & _ & _ & _ & Hmany).
  rewrite Hmany by (simpl; lia). reflexivity.
Defined.

(** ** URLs and renditions *)

Lemma sanitizeUrl_httpUrl (s : option jsstring) :
  sanitizeUrl s = trimmedHttpUrl s.
Proof.
  destruct s as [s|]; [|done]. unfold sanitizeUrl, httpUrl. simpl.
  unfold httpUrl. destruct s as [|c r]; [done|]. simpl negb. cbv iota.
  by destruct (truthy (trim (c :: r))), (hasHttpScheme (trim (c :: r))).
Qed.

Lemma trimmedHttpUrl_Some (s : option jsstring) (u : jsstring) :
  trimmedHttpUrl s = Some u →
  trim u = u ∧ hasHttpScheme u = true ∧ truthy u = true ∧
  ∃ raw, s = Some raw ∧ u = trim raw.
Proof.
  destruct s as [s|]; [|done]. simpl. unfold httpUrl.
  destruct (truthy (trim s)) eqn:Ht, (hasHttpScheme (trim s)) eqn:Hs;
    intros; simplify_eq/=.
  split_and!; [apply trim_idemp|done..|by eexists].
Qed.

Lemma trimmedHttpUrl_unfold (s : jsstring) :
  trimmedHttpUrl (Some s) = if httpUrl s then Some (trim s) else None.
Proof. done. Qed.

#[local] Arguments sanitizeUrl : simpl never.
#[local] Arguments trimmedHttpUrl : simpl never.
#[local] Arguments httpUrl : simpl never.
#[local] Arguments trim : simpl never.

Lemma nonEmpty_trimmedHttpUrl (s : option jsstring) :
  nonEmpty (trimmedHttpUrl s)
  = match trimmedHttpUrl s with Some _ => true | None => false end.
Proof.
  destruct (trimmedHttpUrl s) as [u|] eqn:Hu; [|done].
  by apply trimmedHttpUrl_Some in Hu as (_ & _ & Ht & _).
Qed.

Lemma pickVideoRenditionFrom_first (keys : list RenditionKey)
    (hit : PixabayVideoHit) :
  pickVideoRenditionFrom keys hit
  = firstOf keys (VideoHit.videos hit)
            (λ r, if httpUrl (url r) then Some r else None).
Proof.
  unfold firstOf. induction keys as [|key keys IH]; [done|]. simpl.
  destruct (rendition (VideoHit.videos hit) key) as [r|]; simpl; [|done].
  rewrite sanitizeUrl_httpUrl, nonEmpty_trimmedHttpUrl, trimmedHttpUrl_unfold.
  by destruct (httpUrl (url r)).
Qed.

Lemma findThumbnailFrom_first (keys : list RenditionKey)
    (hit : PixabayVideoHit) :
  findThumbnailFrom keys hit
  = firstOf keys (VideoHit.videos hit) (λ r, trimmedHttpUrl (thumbnail r)).
Proof.
  unfold firstOf. induction keys as [|key keys IH]; [done|]. simpl.
  destruct (rendition (VideoHit.videos hit) key) as [r|]; simpl; [|done].
  rewrite sanitizeUrl_httpUrl, nonEmpty_trimmedHttpUrl.
  by destruct (trimmedHttpUrl (thumbnail r)) as [u|].
Qed.

Lemma findThumbnail_first (hit : PixabayVideoHit)
    (preferred : option jsstring) :
  findThumbnail hit preferred
  = match trimmedHttpUrl preferred with
    | Some u => Some u
    | None =>
        firstOf [medium; small; large; tiny] (VideoHit.videos hit)
                (λ r, trimmedHttpUrl (thumbnail r))
    end.
Proof.
  unfold findThumbnail.
  rewrite sanitizeUrl_httpUrl, nonEmpty_trimmedHttpUrl, findThumbnailFrom_first.
  by destruct (trimmedHttpUrl preferred) as [u|].
Qed.

(** The loop of [searchVideos] keeps, in order, the results of the hits
    for which its body produces one. *)
Lemma videoResults_mapM `{Host} (parsedHits : list PixabayVideoHit)
    (results : list VideoResult) :
  videoResults parsedHits results
  = outs ← mapM toVideoResult parsedHits; mret (results ++ omap id outs).
Proof.
  revert results. induction parsedHits as [|hit hits IH]; intros results.
  - simpl. by rewrite app_nil_r.
  - simpl. destruct (toVideoResult hit) as [[video|]|e]; simpl; [| |done].
    + rewrite IH. destruct (mapM toVideoResult hits); simpl; [|done].
      by rewrite <- (assoc_L (++)).
    + rewrite IH. by destruct (mapM toVideoResult hits).
Qed.

Lemma mapM_Return {A B} (f : A → completion B) (l : list A) (k : list B) :
  mapM f l = Return k → Forall2 (λ x y, f x = Return y) l k.
Proof.
  revert k. induction l as [|x l IH]; intros k; simpl.
  - intros [= <-]. constructor.
  - destruct (f x) as [y|e] eqn:Hx; simpl; [|done].
    destruct (mapM f l) as [k'|e]; simpl; [|done].
    intros [= <-]. constructor; [done|]. by apply IH.
Qed.

Lemma pickVideoRendition_httpUrl (hit : PixabayVideoHit) (r : Rendition) :
  pickVideoRendition hit = Some r → httpUrl (url r) = true.
Proof.
  unfold pickVideoRendition. rewrite pickVideoRenditionFrom_first.
  unfold firstOf. intros [l Hl]%head_Some.
  assert (r ∈ omap (λ key, rendition (VideoHit.videos hit) key
                            ≫= λ r, if httpUrl (url r) then Some r else None)
                   VIDEO_RENDITION_ORDER) as Hin by (rewrite Hl; left).
  apply list_elem_of_omap in Hin as (key & _ & Hin).
  destruct (rendition _ key) as [r'|]; [|done]. simpl in Hin.
  destruct (httpUrl (url r')) eqn:Hr'; by simplify_eq.
Qed.

Lemma toVideoResult_Return `{Host} (hit : PixabayVideoHit)
    (result : option VideoResult) :
  toVideoResult hit = Return result →
  match pickVideoRendition hit with
  | None => result = None
  | Some r =>
      ∃ video, result = Some video ∧
        Video.videoUrl video = trim (url r) ∧
        Video.previewImageUrl video = findThumbnail hit (thumbnail r)
  end.
Proof.
  unfold toVideoResult.
  pose proof (pickVideoRendition_httpUrl hit) as Hurl.
  destruct (pickVideoRendition hit) as [r|]; [|by intros [= <-]].
  specialize (Hurl r eq_refl).
  rewrite sanitizeUrl_httpUrl, trimmedHttpUrl_unfold, Hurl.
  unfold httpUrl in Hurl. apply andb_true_iff in Hurl as [-> _].
  destruct (buildContributorProfile _ _); simpl; [|done].
  intros [= <-]. by eexists.
Qed.

(** C1: for a parsed video hit, the rendition is the first of medium,
    large, small, tiny that is present and whose URL is a well-formed
    absolute http(s) URL after trimming. Without such a rendition the
    hit gives no result. Otherwise its result carries the trimmed URL of
    that rendition, and as preview the rendition's own thumbnail when
    that is a well-formed http(s) URL, else the first well-formed
    thumbnail of medium, small, large, tiny, else null. The results of
    the search are, in order, those of the hits that give one. *)
Theorem video_rendition_selection `{Host} (hit : PixabayVideoHit) :
  pickVideoRendition hit
  = firstOf [medium; large; small; tiny] (VideoHit.videos hit)
            (λ r, if httpUrl (url r) then Some r else None) ∧
  (pickVideoRendition hit = None → toVideoResult hit = Return None) ∧
  (∀ r result,
     pickVideoRendition hit = Some r → toVideoResult hit = Return result →
     ∃ video, result = Some video ∧
       Video.videoUrl video = trim (url r) ∧
       Video.previewImageUrl video
       = match trimmedHttpUrl (thumbnail r) with
         | Some own => Some own
         | None =>
             firstOf [medium; small; large; tiny] (VideoHit.videos hit)
                     (λ r', trimmedHttpUrl (thumbnail r'))
         end) ∧
  (∀ parsedHits results,
     videoResults parsedHits [] = Return results →
     ∃ outs,
       Forall2 (λ hit out, toVideoResult hit = Return out) parsedHits outs ∧
       results = omap id outs).
Proof.
  split_and!.
  - apply pickVideoRenditionFrom_first.
  - intros Hnone. unfold toVideoResult. by rewrite Hnone.
  - intros r result Hpick Hresult. apply toVideoResult_Return in Hresult.
    rewrite Hpick in Hresult. destruct Hresult as (video & -> & Hu & Hp).
    exists video. by rewrite <- findThumbnail_first.
  - intros parsedHits results. rewrite videoResults_mapM.
    destruct (mapM toVideoResult parsedHits) as [outs|e] eqn:Houts; [|done].
    simpl. intros [= <-]. exists outs. split; [|done].
    by apply mapM_Return.
Qed.

Lemma video_rendition_selection_witness :
  ∃ video,
    toVideoResult (H:=exampleHost) smallOnly = Return (Some video) ∧
    Video.videoUrl video = js "https://cdn.pixabay.com/video/small.mp4" ∧
    Video.previewImageUrl video
    = Some (js "https://cdn.pixabay.com/video/tiny.jpg").
Proof.
  destruct (@video_rendition_selection exampleHost smallOnly)
    as (_ & _ & Hsome & _).
  destruct (Hsome _ _ eq_refl eq_refl) as (video & Hvideo & Hurl & Hpreview).
  exists video. split_and!; [by rewrite <- Hvideo|exact Hurl|exact Hpreview].
Defined.

(** C10: whenever the selection returns a rendition, sanitising its URL
    again gives a non-empty URL, so the guard that follows the selection
    in the loop of [searchVideos] never drops a hit; and every video
    result of the search has a video URL that is trimmed and starts with
    the http(s) scheme. *)
Theorem selected_rendition_url_survives `{Host} :
  (∀ hit r,
     pickVideoRendition hit = Some r →
     ∃ videoUrl,
       sanitizeUrl (Some (url r)) = Some videoUrl ∧ truthy videoUrl = true) ∧
  (∀ parsedHits results,
     videoResults parsedHits [] = Return results →
     Forall (λ video,
               trim (Video.videoUrl video) = Video.videoUrl video ∧
               hasHttpScheme (Video.videoUrl video) = true) results).
Proof.
  split.
  - intros hit r Hurl%pickVideoRendition_httpUrl.
    rewrite sanitizeUrl_httpUrl, trimmedHttpUrl_unfold, Hurl.
    eexists; split; [done|]. unfold httpUrl in Hurl.
    by apply andb_true_iff in Hurl as [-> _].
  - intros parsedHits results. rewrite videoResults_mapM.
    destruct (mapM toVideoResult parsedHits) as [outs|e] eqn:Houts; [|done].
    simpl. intros [= <-]. apply mapM_Return in Houts.
    induction Houts as [|hit out hits outs Hhit _ IH]; [constructor|].
    destruct out as [video|]; simpl; [|done]. constructor; [|done].
    apply toVideoResult_Return in Hhit.
    destruct (pickVideoRendition hit) as [r|] eqn:Hpick; [|done].
    destruct Hhit as (? & [= <-] & -> & _).
    apply pickVideoRendition_httpUrl in Hpick. unfold httpUrl in Hpick.
    apply andb_true_iff in Hpick as [_ ->]. by rewrite trim_idemp.
Qed.

Lemma selected_rendition_url_survives_witness :
  ∃ video,
    videoResults (H:=exampleHost) [noRendition; smallOnly] []
    = Return [video] ∧
    trim (Video.videoUrl video) = Video.videoUrl video ∧
    hasHttpScheme (Video.videoUrl video) = true.
Proof.
  eexists. split; [reflexivity|].
  destruct (@selected_rendition_url_survives exampleHost) as [_ Hresults].
  specialize (Hresults [noRendition; smallOnly] _ eq_refl).
  by apply Forall_cons in Hresults as [Hvideo _].
Defined.

(** ** Mapping the response *)

Lemma parseHits_acc {A} (schema : value number → option A)
    (hits : list (value number)) (parsedHits : list A) :
  foldl (λ parsedHits rawHit,
           match schema rawHit with
           | Some data => parsedHits ++ [data]
           | None => parsedHits
           end) parsedHits hits
  = parsedHits ++ omap schema hits.
Proof.
  revert parsedHits. induction hits as [|rawHit hits IH]; intros parsedHits.
  - simpl. by rewrite app_nil_r.
  - simpl. rewrite IH. destruct (schema rawHit); [|done].
    by rewrite <- (assoc_L (++)).
Qed.

(** The validation loop keeps the hits that parse, in order. *)
Lemma parseHits_omap {A} (schema : value number → option A)
    (hits : list (value number)) :
  parseHits schema hits = omap schema hits.
Proof. unfold parseHits. by rewrite parseHits_acc. Qed.

(** Each hit that fails validation makes the list one shorter. *)
Lemma parseHits_length {A} (schema : value number → option A)
    (hits : list (value number)) :
  (length (parseHits schema hits)
   + length (filter (λ rawHit, schema rawHit = None) hits)
   = length hits)%nat.
Proof.
  rewrite parseHits_omap. induction hits as [|rawHit hits IH]; [done|].
  rewrite filter_cons. simpl.
  destruct (schema rawHit); case_decide; try done; simpl;
    rewrite ?Nat.add_succ_r; f_equal; exact IH.
Qed.

Lemma mapM_Return_length {A B} (f : A → completion B) (l : list A)
    (k : list B) :
  mapM f l = Return k → length k = length l.
Proof. intros Hk%mapM_Return. symmetry. by eapply Forall2_length. Qed.

(** When the image search returns, its results are the valid hits
    mapped in order, and there is one result less for each invalid
    hit. *)
Lemma searchImages_Return `{Host} (response : Response)
    (result : PixabayImageSearchResult) :
  searchImages response = Return result →
  ∃ body,
    json response = Some body ∧
    let hits := hitsOf (getProp body (js "hits")) in
    Forall2 (λ hit image, toImageResult hit = Return image)
            (omap pixabayImageHitSchema hits) (ImageSearch.results result) ∧
    (length (ImageSearch.results result)
     + length (filter (λ rawHit, pixabayImageHitSchema rawHit = None) hits)
     = length hits)%nat ∧
    ImageSearch.totalHits result
    = coalesce (getProp body (js "totalHits"))
               (VNumber (ofNat (length (ImageSearch.results result)))).
Proof.
  unfold searchImages. destruct (negb (ok response)); [done|].
  destruct (json response) as [body|]; [|done]. unfold readProp.
  destruct (nullish body); [done|]. simpl.
  destruct (mapM toImageResult _) as [results|e] eqn:Hresults; [|done].
  simpl. intros [= <-]. exists body. simpl. split_and!; [done| | |done].
  - rewrite <- parseHits_omap. by apply mapM_Return.
  - apply mapM_Return_length in Hresults. rewrite Hresults.
    apply parseHits_length.
Qed.

Lemma searchVideos_Return `{Host} (response : Response)
    (result : PixabayVideoSearchResult) :
  searchVideos response = Return result →
  ∃ body,
    json response = Some body ∧
    videoResults
      (omap pixabayVideoHitSchema (hitsOf (getProp body (js "hits")))) []
    = Return (VideoSearch.results result) ∧
    VideoSearch.totalHits result
    = coalesce (getProp body (js "totalHits"))
               (VNumber (ofNat (length (VideoSearch.results result)))).
Proof.
  unfold searchVideos. destruct (negb (ok response)); [done|].
  destruct (json response) as [body|]; [|done]. unfold readProp.
  destruct (nullish body); [done|]. simpl. rewrite parseHits_omap.
  destruct (videoResults _ _) as [results|e] eqn:Hresults; [|done].
  simpl. intros [= <-]. by exists body.
Qed.

(** C8: the total the search reports is the field [totalHits] of the
    upstream body when that field is present and not null, and the
    number of results that survived otherwise, for the image search and
    for the video search alike. *)
Theorem total_hits_reported `{Host} (response : Response) :
  (∀ result,
     searchImages response = Return result →
     ∃ body,
       json response = Some body ∧
       ImageSearch.totalHits result
       = match getProp body (js "totalHits") with
         | VUndefined | VNull =>
             VNumber (ofNat (length (ImageSearch.results result)))
         | upstream => upstream
         end) ∧
  (∀ result,
     searchVideos response = Return result →
     ∃ body,
       json response = Some body ∧
       VideoSearch.totalHits result
       = match getProp body (js "totalHits") with
         | VUndefined | VNull =>
             VNumber (ofNat (length (VideoSearch.results result)))
         | upstream => upstream
         end).
Proof.
  split; intros result.
  - intros (body & Hbody & _ & _ & ->)%searchImages_Return.
    exists body. split; [done|]. unfold coalesce.
    by destruct (getProp body (js "totalHits")).
  - intros (body & Hbody & _ & ->)%searchVideos_Return.
    exists body. split; [done|]. unfold coalesce.
    by destruct (getProp body (js "totalHits")).
Qed.

Lemma total_hits_reported_witness :
  ∃ images videos,
    searchImages (H:=exampleHost) (okResponse oneValidOfTwo) = Return images ∧
    ImageSearch.totalHits images = VNumber (ofNat 1) ∧
    searchVideos (H:=exampleHost) (okResponse loneSurrogateUser)
    = Return videos ∧
    VideoSearch.totalHits videos = VNumber (Dyadic 2 0).
Proof.
  destruct (@total_hits_reported exampleHost (okResponse oneValidOfTwo))
    as [Himages _].
  destruct (@total_hits_reported exampleHost (okResponse loneSurrogateUser))
    as [_ Hvideos].
  eexists _, _. split_and!; [reflexivity| |reflexivity|].
  - destruct (Himages _ eq_refl) as (body & [= <-] & ->). reflexivity.
  - destruct (Hvideos _ eq_refl) as (body & [= <-] & ->). reflexivity.
Defined.

Lemma omap_cons_app {A B} (f : A → option B) (x : A) (l : list A) :
  omap f (x :: l) = from_option (λ y, [y]) [] (f x) ++ omap f l.
Proof. simpl. by destruct (f x). Qed.

Lemma mapM_cons {A B} (f : A → completion B) (x : A) (l : list A) :
  mapM f (x :: l) = y ← f x; k ← mapM f l; mret (y :: k).
Proof. done. Qed.

(** The image search returns whenever the response is a success with
    a JSON body other than null and the user name of every valid hit can
    be encoded; a [URIError] is the only error of the mapping. *)
Lemma searchImages_returns `{Host} (response : Response)
    (body : value number) :
  ok response = true → json response = Some body → nullish body = false →
  Forall (λ hit, is_Some (encodeURIComponent (ImageHit.user hit)))
         (omap pixabayImageHitSchema (hitsOf (getProp body (js "hits")))) →
  ∃ result, searchImages response = Return result.
Proof.
  intros Hok Hbody Hnull Husers. unfold searchImages, readProp.
  rewrite Hok, Hbody, Hnull. simpl. rewrite parseHits_omap.
  enough (∃ results, mapM toImageResult
            (omap pixabayImageHitSchema (hitsOf (getProp body (js "hits"))))
          = Return results) as [results ->] by (simpl; by eexists).
  induction Husers as [|hit hits [encoded Hhit] _ [results IH]].
  - by eexists.
  - rewrite mapM_cons, IH. unfold toImageResult, buildContributorProfile.
    rewrite Hhit. simpl. by eexists.
Qed.

Lemma rawImageHit_parsed `{Host} (user : jsstring) :
  isUrl (js "https://pixabay.com/photos/sunset-1/") = true →
  ∃ hit, pixabayImageHitSchema (rawImageHit user) = Some hit ∧
         ImageHit.user hit = user.
Proof.
  intros Hurl. unfold pixabayImageHitSchema, z_url. simpl.
  rewrite Hurl. simpl. by eexists.
Qed.

(** C2 says that the hits failing validation are dropped, that the
    remaining hits are still mapped in order and that no record makes
    the invocation fail. The code departs from it: a hit that passes
    validation and whose user name holds a lone surrogate makes
    [encodeURIComponent] throw while the results are built, so the whole
    image search throws a [URIError] instead of returning the results of
    the valid hits ([searchImages_Return] and [searchImages_returns]
    give what holds apart from this case). *)
Theorem lone_surrogate_user_aborts_search `{Host} :
  isUrl (js "https://pixabay.com/photos/sunset-1/") = true →
  is_Some (pixabayImageHitSchema (rawImageHit [55296])) ∧
  is_Some (pixabayImageHitSchema (rawImageHit (js "ana"))) ∧
  pixabayImageHitSchema VNull = None ∧
  searchImages (okResponse loneSurrogateUser) = Throw (Native URIError).
Proof.
  intros Hurl.
  destruct (rawImageHit_parsed (js "ana") Hurl) as (ana & Hana & Huana).
  destruct (rawImageHit_parsed [55296] Hurl) as (bad & Hbad & Hubad).
  split_and!; [by eexists..|done|].
  unfold searchImages.
  change (negb (ok (okResponse loneSurrogateUser))) with false. cbv iota.
  change (json (okResponse loneSurrogateUser)) with (Some loneSurrogateUser).
  cbv iota.
  change (readProp loneSurrogateUser (js "hits"))
    with (Return (VArray [rawImageHit (js "ana"); VNull; rawImageHit [55296]])).
  cbn [fmap completion_fmap mbind completion_bind hitsOf].
  rewrite parseHits_omap, !omap_cons_app, Hana, Hbad.
  change (pixabayImageHitSchema VNull) with (@None PixabayImageHit).
  cbn [from_option app omap list_omap].
  rewrite !mapM_cons. unfold toImageResult, buildContributorProfile.
  rewrite Huana, Hubad.
  change (encodeURIComponent (js "ana")) with (Some (js "ana")).
  change (encodeURIComponent [55296]) with (@None jsstring).
  done.
Qed.

Lemma lone_surrogate_user_aborts_search_witness :
  searchImages (H:=exampleHost) (okResponse loneSurrogateUser)
  = Throw (Native URIError).
Proof.
  exact (proj2 (proj2 (proj2
    (@lone_surrogate_user_aborts_search exampleHost eq_refl)))).
Defined.

(** * Further properties of the sources *)

(** ** [sanitizeUrl] *)

(** X1: a URL that [sanitizeUrl] returns is not empty, is trimmed and
    starts with the http(s) scheme, and sanitising it again returns it
    unchanged. *)
Theorem sanitizeUrl_idempotent (value : option jsstring) (url : jsstring) :
  sanitizeUrl value = Some url →
  sanitizeUrl (Some url) = Some url ∧
  url ≠ [] ∧ trim url = url ∧ hasHttpScheme url = true.
Proof.
  rewrite !sanitizeUrl_httpUrl.
  intros (Htrim & Hscheme & Htruthy & _)%trimmedHttpUrl_Some.
  rewrite trimmedHttpUrl_unfold. unfold httpUrl.
  rewrite Htrim, Hscheme, Htruthy. split_and!; try done.
  by destruct url.
Qed.

Lemma sanitizeUrl_idempotent_witness :
  sanitizeUrl (Some (js "HTTPS://cdn.pixabay.com/a.mp4"))
  = Some (js "HTTPS://cdn.pixabay.com/a.mp4").
Proof.
  exact (proj1 (sanitizeUrl_idempotent
                  (Some (js "  HTTPS://cdn.pixabay.com/a.mp4 "))
                  (js "HTTPS://cdn.pixabay.com/a.mp4") eq_refl)).
Defined.

(** ** [normalizeTags] *)

Lemma split_no_separator (sep : N → bool) (s w : jsstring) :
  w ∈ split sep s → Forall (λ c, sep c = false) w.
Proof.
  revert w. induction s as [|c r IH]; intros w; simpl.
  - intros ->%list_elem_of_singleton. constructor.
  - destruct (sep c) eqn:Hc.
    + intros [->|Hw]%elem_of_cons; [constructor|by apply IH].
    + destruct (split sep r) as [|w' ws] eqn:Hr.
      * intros ->%list_elem_of_singleton. by repeat constructor.
      * intros [->|Hw]%elem_of_cons.
        -- constructor; [done|]. apply IH. left.
        -- apply IH. by right.
Qed.

Lemma elem_of_trimStart (c : N) (s : jsstring) : c ∈ trimStart s → c ∈ s.
Proof.
  induction s as [|x r IH]; simpl; [done|].
  destruct (isWhiteSpace x); [|done]. intros Hc. right. by apply IH.
Qed.

Lemma elem_of_trimEnd (c : N) (s : jsstring) : c ∈ trimEnd s → c ∈ s.
Proof.
  induction s as [|x r IH]; simpl; [done|].
  destruct (trimEnd r) as [|y r'].
  - destruct (isWhiteSpace x); [by intros ?%elem_of_nil|].
    intros ->%list_elem_of_singleton. left.
  - intros [->|Hc]%elem_of_cons; [left|]. right. by apply IH.
Qed.

Lemma elem_of_trim (c : N) (s : jsstring) : c ∈ trim s → c ∈ s.
Proof. intros Hc%elem_of_trimEnd. by apply elem_of_trimStart. Qed.

Lemma normalizeTags_cleanTag (tags : jsstring) :
  Forall cleanTag (normalizeTags tags).
Proof.
  unfold normalizeTags. apply Forall_forall. intros tag.
  intros [Hlen (piece & -> & Hpiece)%list_elem_of_fmap]%list_elem_of_filter.
  split_and!.
  - intros Hnil. rewrite Hnil in Hlen. simpl in Hlen. lia.
  - apply trim_idemp.
  - intros Hcomma%elem_of_trim.
    apply split_no_separator in Hpiece.
    rewrite Forall_forall in Hpiece. by specialize (Hpiece 44 Hcomma).
Qed.

(** X2: every tag [normalizeTags] returns is non-empty, has no
    surrounding white space and contains no comma. *)
Theorem normalizeTags_clean (tags : jsstring) :
  Forall (λ tag, tag ≠ [] ∧ trim tag = tag ∧ 44 ∉ tag) (normalizeTags tags).
Proof. apply normalizeTags_cleanTag. Qed.

(** ** [resolveLanguage] and [resolveLocale] *)

Lemma resolveLanguage_fixes_supported :
  Forall (λ lang, resolveLanguage (Some lang) = lang) SUPPORTED_LANGS.
Proof. apply (bool_decide_unpack _). by vm_compute. Qed.

Lemma defaultLocale_supported : serverConfig.defaultLocale ∈ SUPPORTED_LANGS.
Proof. apply (bool_decide_unpack _). by vm_compute. Qed.

(** X3: whatever the locale, the language [resolveLanguage] returns is
    one of the supported languages, and resolving it again changes
    nothing. *)
Theorem resolveLanguage_supported (locale : option jsstring) :
  resolveLanguage locale ∈ SUPPORTED_LANGS ∧
  resolveLanguage (Some (resolveLanguage locale)) = resolveLanguage locale.
Proof.
  assert (resolveLanguage locale ∈ SUPPORTED_LANGS) as Hin.
  { unfold resolveLanguage. destruct locale as [locale|];
      [|apply defaultLocale_supported].
    destruct (negb (truthy locale)); [apply defaultLocale_supported|].
    destruct (toLowerCase <$> head _) as [candidate|];
      [|apply defaultLocale_supported].
    destruct (truthy candidate); simpl; [|apply defaultLocale_supported].
    case_bool_decide; [done|apply defaultLocale_supported]. }
  split; [done|].
  pose proof resolveLanguage_fixes_supported as Hfix.
  by eapply Forall_forall in Hfix.
Qed.



(** ** [normalizeQuery] on any string *)

(** What [normalizeQuery] makes of a query that is not blank. *)
Lemma normalizeQuery_nonblank (query : jsstring) :
  trim query ≠ [] →
  normalizeQuery query ≠ [] ∧
  trim (normalizeQuery query) = normalizeQuery query ∧
  (bracketed (trim query) = false → normalizeQuery query = trim query).
Proof.
  unfold normalizeQuery. intros Hne.
  assert (truthy (trim query) = true) as -> by (by destruct (trim query)).
  simpl negb. cbv iota.
  assert (trim query ≠ [] ∧ trim (trim query) = trim query ∧
          (bracketed (trim query) = false → trim query = trim query))
    as Hsame by (split_and!; [done|apply trim_idemp|done]).
  destruct (bracketed (trim query)) eqn:Hb; [|done].
  destruct (JSON_parse (trim query)) as [parsed|] eqn:Hp; [|done].
  destruct (JSON_parse_bracketed _ _ Hb Hp) as [[props ->]|[xs ->]];
    [|done].
  unfold recoverQuery.
  destruct (getProp (VObject props) (js "query")) as [| | | |n| |];
    try done.
  destruct (trim n) as [|x y] eqn:Hn; [done|]. simpl.
  split_and!; [done| |done]. rewrite <- Hn. apply trim_idemp.
Qed.

(** X5: a query that is blank is returned as it is, white space
    included; any other query is normalised to a string that is not
    empty and has no surrounding white space, and to its trimmed self
    when it is not wrapped in brackets. *)
Theorem normalizeQuery_shape (query : jsstring) :
  (trim query = [] → normalizeQuery query = query) ∧
  (trim query ≠ [] →
   normalizeQuery query ≠ [] ∧
   trim (normalizeQuery query) = normalizeQuery query ∧
   (bracketed (trim query) = false → normalizeQuery query = trim query)).
Proof.
  split; [|apply normalizeQuery_nonblank].
  unfold normalizeQuery. by intros ->.
Qed.

Lemma normalizeQuery_shape_witness :
  normalizeQuery (js "  red  fox ") = js "red  fox".
Proof.
  destruct (normalizeQuery_shape (js "  red  fox ")) as [_ Hshape].
  destruct Hshape as (_ & _ & Hplain); [done|].
  exact (Hplain eq_refl).
Defined.

(** ** [buildContributorProfile] *)









(** ** The upstream request *)

(** A successful parse is made of the parsed fields, none of which
    raised an issue. *)
Lemma schema_fields (raw : value number) (input : SearchImagesInput) :
  searchImagesInputSchema raw = inr input →
  querySchema (getProp raw (js "query")) = ([], Some (query input)) ∧
  orientationSchema (getProp raw (js "orientation"))
  = ([], Some (orientation input)) ∧
  safesearchSchema (getProp raw (js "safesearch"))
  = ([], Some (safesearch input)) ∧
  per_pageSchema (getProp raw (js "per_page")) = ([], Some (per_page input)).
Proof.
  destruct raw as [| | | | | |props]; try done.
  unfold searchImagesInputSchema.
  destruct (querySchema _) as [qi qd], (orientationSchema _) as [oi od],
    (safesearchSchema _) as [si sd], (per_pageSchema _) as [pi pd].
  cbn [fst snd].
  destruct (qi ++ oi ++ si ++ pi ++ _) as [|i issues] eqn:Hi; [|done].
  apply app_eq_nil in Hi as [-> Hi]. apply app_eq_nil in Hi as [-> Hi].
  apply app_eq_nil in Hi as [-> Hi]. apply app_eq_nil in Hi as [-> _].
  destruct qd, od, sd, pd; try done. by intros [= <-].
Qed.

Lemma when_nil (b : bool) (i : ZodIssue) : when b i = [] → b = false.
Proof. by destruct b. Qed.

(** A page size that passed validation is an integer from 3 to 20. *)
Lemma per_pageSchema_range (v : value number) (n : number) :
  per_pageSchema v = ([], Some (Some n)) →
  v = VNumber n ∧ ∃ z, integerValue n = Some z ∧ (3 ≤ z ≤ 20)%Z.
Proof.
  unfold per_pageSchema. destruct v as [| | |m| | |]; try done.
  destruct (isNaN m); [done|]. intros [= Hi <-].
  apply app_eq_nil in Hi as [Hint%when_nil Hi].
  apply app_eq_nil in Hi as [Hlt%when_nil Hgt%when_nil].
  apply negb_false_iff, integerValue_isInteger in Hint as [z Hz].
  split; [done|]. exists z. split; [done|].
  rewrite (integerValue_ltZ _ _ _ Hz) in Hlt.
  rewrite (integerValue_gtZ _ _ _ Hz) in Hgt.
  apply bool_decide_eq_false in Hlt. apply bool_decide_eq_false in Hgt.
  change (Z.of_nat serverConfig.maxPerPage) with 20%Z in Hgt. lia.
Qed.

(** The enum value of an orientation is the string it was read from. *)
Lemma orientationSchema_name (v : value number) (o : Orientation) :
  orientationSchema v = ([], Some (Some o)) → v = VString (orientationName o).
Proof.
  unfold orientationSchema. destruct v as [| | | |s| |]; try done.
  destruct (lookupEnum s) as [o'|] eqn:Ho; [|done]. intros [= <-].
  unfold lookupEnum in Ho. simpl in Ho.
  repeat case_decide; by simplify_eq/=.
Qed.

(** X7: when the handler goes on to search, the parameters of the
    upstream request are in order key, q, safesearch, per_page, lang,
    and for images also image_type and orientation. The query is not
    empty and has no surrounding white space; safesearch is the
    payload's boolean, or true without one; per_page is the payload's
    integer from 3 to 20, or 6 without one; lang is a supported language
    code; image_type is photo; orientation is the payload's value, or
    all without one. *)
Theorem search_request_parameters `{Host} (rawInput meta : value number)
    (params : SearchImagesParams) (pixabayApiKey : jsstring) :
  awaited (handler rawInput meta) = Some params →
  ∃ q safe n z lang o,
    imageSearchParams pixabayApiKey params
    = [(js "key", pixabayApiKey); (js "q", q);
       (js "safesearch", if safe : bool then js "true" else js "false");
       (js "per_page", numberToString n); (js "lang", lang);
       (js "image_type", js "photo"); (js "orientation", o)] ∧
    videoSearchParams pixabayApiKey params
    = [(js "key", pixabayApiKey); (js "q", q);
       (js "safesearch", if safe then js "true" else js "false");
       (js "per_page", numberToString n); (js "lang", lang)] ∧
    q ≠ [] ∧ trim q = q ∧
    match getProp rawInput (js "safesearch") with
    | VBool b => safe = b
    | _ => safe = true
    end ∧
    integerValue n = Some z ∧ (3 ≤ z ≤ 20)%Z ∧
    match getProp rawInput (js "per_page") with
    | VNumber m => n = m
    | _ => z = 6%Z
    end ∧
    lang ∈ SUPPORTED_LANGS ∧
    match getProp rawInput (js "orientation") with
    | VString s => o = s
    | _ => o = js "all"
    end ∧
    o ∈ [js "all"; js "horizontal"; js "vertical"].
Proof.
  unfold handler.
  destruct (searchImagesInputSchema rawInput) as [issues|request] eqn:Hinput;
    [done|].
  intros [= <-].
  destruct (schema_fields _ _ Hinput) as (Hq & Ho & Hs & Hp).
  unfold imageSearchParams, videoSearchParams, String_bool.
  cbn [input locale query safesearch per_page orientation].
  set (n := default (ofNat serverConfig.defaultPerPage) (per_page request)).
  assert (∃ z, integerValue n = Some z ∧ (3 ≤ z ≤ 20)%Z ∧
               match getProp rawInput (js "per_page") with
               | VNumber m => n = m
               | _ => z = 6%Z
               end) as (z & Hz & Hrange & Hpage).
  { subst n. destruct (per_page request) as [m|].
    - apply per_pageSchema_range in Hp as (-> & z & Hz & Hr). by exists z.
    - exists 6%Z. split; [done|]. split; [lia|].
      revert Hp. unfold per_pageSchema.
      destruct (getProp rawInput (js "per_page")) as [| | |m| | |]; try done.
      by destruct (isNaN m). }
  eexists (normalizeQuery (query request)), (default true (safesearch request)),
    n, z, _, (orientationName (default all (orientation request))).
  assert (trim (query request) ≠ []) as Hne.
  { unfold querySchema in Hq.
    destruct (getProp rawInput (js "query")) as [| | | |s| |]; try done.
    injection Hq as Hi Hd. apply app_eq_nil in Hi as [Hi%when_nil _].
    rewrite ltb_1_nil in Hi. apply bool_decide_eq_false in Hi.
    by rewrite <- Hd, trim_idemp. }
  apply normalizeQuery_nonblank in Hne as (Hne & Htrim & _).
  split_and!; try done; try lia.
  - revert Hs. unfold safesearchSchema.
    destruct (getProp rawInput (js "safesearch")); by intros [= <-].
  - unfold resolveLanguage.
    destruct (negb (truthy (resolveLocale meta)));
      [apply defaultLocale_supported|].
    destruct (toLowerCase <$> head _) as [candidate|];
      [|apply defaultLocale_supported].
    destruct (truthy candidate); simpl; [|apply defaultLocale_supported].
    case_bool_decide; [done|apply defaultLocale_supported].
  - destruct (orientation request) as [o|].
    + apply orientationSchema_name in Ho. by rewrite Ho.
    + revert Ho. unfold orientationSchema.
      destruct (getProp rawInput (js "orientation")) as [| | | |s| |];
        try done.
      by destruct (lookupEnum s).
  - destruct (default all (orientation request));
      apply list_elem_of_In; simpl; tauto.
Qed.

Lemma search_request_parameters_witness :
  ∃ params q safe n z lang o,
    awaited (handler (H:=exampleHost) sunsetInput maskedLocale) = Some params ∧
    imageSearchParams (H:=exampleHost) (js "k") params
    = [(js "key", js "k"); (js "q", q);
       (js "safesearch", if safe : bool then js "true" else js "false");
       (js "per_page", numberToString (Host:=exampleHost) n);
       (js "lang", lang);
       (js "image_type", js "photo"); (js "orientation", o)] ∧
    q = js "sunset" ∧ safe = true ∧ n = Dyadic 5 0 ∧ z = 5%Z ∧
    lang = js "en" ∧ o = js "all".
Proof.
  eexists.
  destruct (@search_request_parameters exampleHost sunsetInput maskedLocale
              _ (js "k") eq_refl)
    as (q & safe & n & z & lang & o & Himage & _ & _ & _ & Hsafe & Hz & _
        & Hn & _ & Ho & _).
  exists q, safe, n, z, lang, o. simpl in Hsafe, Hn, Ho. subst safe n o.
  injection Hz as <-.
  assert (q = js "sunset" ∧ lang = js "en") as [-> ->]
    by (vm_compute in Himage; by inversion Himage).
  by split_and!.
Defined.

(** ** The hit schemas *)

Lemma z_number_Some (v : value number) (n : number) :
  z_number v = Some n → v = VNumber n ∧ isNaN n = false.
Proof.
  destruct v as [| | |m| | |]; try done. simpl.
  destruct (isNaN m) eqn:Hm; [done|]. by intros [= <-].
Qed.

Lemma z_string_Some (v : value number) (s : jsstring) :
  z_string v = Some s → v = VString s.
Proof. destruct v; try done. by intros [= <-]. Qed.

Lemma z_url_Some `{Host} (v : value number) (s : jsstring) :
  z_url v = Some s → v = VString s ∧ isUrl s = true.
Proof.
  unfold z_url. destruct (z_string v) as [s'|] eqn:Hs; [|done]. simpl.
  apply z_string_Some in Hs as ->.
  destruct (isUrl s') eqn:Hurl; [|done]. by intros [= <-].
Qed.

Lemma z_duration_Some (v : value number) (n : number) :
  z_duration v = Some n →
  v = VNumber n ∧ ∃ z, integerValue n = Some z ∧ (0 ≤ z)%Z.
Proof.
  unfold z_duration. destruct (z_number v) as [m|] eqn:Hm; [|done]. simpl.
  apply z_number_Some in Hm as [-> _].
  destruct (Number_isInteger m) eqn:Hint; [|done].
  destruct (ltZ m 0) eqn:Hlt; [done|]. intros [= <-]. split; [done|].
  apply integerValue_isInteger in Hint as [z Hz]. exists z. split; [done|].
  rewrite (integerValue_ltZ _ _ _ Hz) in Hlt.
  apply bool_decide_eq_false in Hlt. lia.
Qed.

Lemma z_optional_number_Some (v : value number) (n : option number) :
  z_optional z_number v = Some n →
  match n with
  | Some n => v = VNumber n ∧ isNaN n = false
  | None => v = VUndefined
  end.
Proof.
  unfold z_optional. destruct v as [| | |m| | |]; try done.
  - by intros [= <-].
  - simpl. destruct (isNaN m) eqn:Hm; [done|]. by intros [= <-].
Qed.

Ltac bind_cases H :=
  repeat match type of H with
         | (?m ≫= _) = Some _ =>
             let E := fresh "Hfield" in
             destruct m eqn:E; cbn [mbind option_bind] in H; [|discriminate H]
         end.

(** What a raw hit that passes [pixabayImageHitSchema] holds: the
    parsed record carries the values of the raw hit as they came. *)
Lemma pixabayImageHitSchema_Some `{Host} (rawHit : value number)
    (hit : PixabayImageHit) :
  pixabayImageHitSchema rawHit = Some hit →
  (getProp rawHit (js "id") = VNumber (ImageHit.id hit) ∧
   isNaN (ImageHit.id hit) = false) ∧
  (getProp rawHit (js "pageURL") = VString (ImageHit.pageURL hit) ∧
   isUrl (ImageHit.pageURL hit) = true) ∧
  (getProp rawHit (js "previewURL") = VString (ImageHit.previewURL hit) ∧
   isUrl (ImageHit.previewURL hit) = true) ∧
  (getProp rawHit (js "webformatURL") = VString (ImageHit.webformatURL hit) ∧
   isUrl (ImageHit.webformatURL hit) = true) ∧
  (getProp rawHit (js "imageWidth") = VNumber (ImageHit.imageWidth hit) ∧
   isNaN (ImageHit.imageWidth hit) = false) ∧
  (getProp rawHit (js "imageHeight") = VNumber (ImageHit.imageHeight hit) ∧
   isNaN (ImageHit.imageHeight hit) = false) ∧
  getProp rawHit (js "tags") = VString (ImageHit.tags hit) ∧
  getProp rawHit (js "user") = VString (ImageHit.user hit) ∧
  (getProp rawHit (js "user_id") = VNumber (ImageHit.user_id hit) ∧
   isNaN (ImageHit.user_id hit) = false) ∧
  (getProp rawHit (js "likes") = VNumber (ImageHit.likes hit) ∧
   isNaN (ImageHit.likes hit) = false) ∧
  (getProp rawHit (js "downloads") = VNumber (ImageHit.downloads hit) ∧
   isNaN (ImageHit.downloads hit) = false).
Proof.
  intros Hs. unfold pixabayImageHitSchema in Hs.
  destruct rawHit as [| | | | | |props]; try done.
  bind_cases Hs. injection Hs as <-.
  cbn [ImageHit.id ImageHit.pageURL ImageHit.previewURL ImageHit.webformatURL
       ImageHit.imageWidth ImageHit.imageHeight ImageHit.tags ImageHit.user
       ImageHit.user_id ImageHit.likes ImageHit.downloads].
  repeat match goal with
         | E : z_number _ = Some _ |- _ => apply z_number_Some in E as [? ?]
         | E : z_url _ = Some _ |- _ => apply z_url_Some in E as [? ?]
         | E : z_string _ = Some _ |- _ => apply z_string_Some in E
         end.
  by split_and!.
Qed.

(** The same for [pixabayVideoHitSchema]. *)
Lemma pixabayVideoHitSchema_Some `{Host} (rawHit : value number)
    (hit : PixabayVideoHit) :
  pixabayVideoHitSchema rawHit = Some hit →
  (getProp rawHit (js "id") = VNumber (VideoHit.id hit) ∧
   isNaN (VideoHit.id hit) = false) ∧
  (getProp rawHit (js "pageURL") = VString (VideoHit.pageURL hit) ∧
   isUrl (VideoHit.pageURL hit) = true) ∧
  getProp rawHit (js "tags") = VString (VideoHit.tags hit) ∧
  (getProp rawHit (js "duration") = VNumber (VideoHit.duration hit) ∧
   ∃ z, integerValue (VideoHit.duration hit) = Some z ∧ (0 ≤ z)%Z) ∧
  getProp rawHit (js "type") = VString (VideoHit.type hit) ∧
  videosSchema (getProp rawHit (js "videos")) = Some (VideoHit.videos hit) ∧
  getProp rawHit (js "user") = VString (VideoHit.user hit) ∧
  (getProp rawHit (js "user_id") = VNumber (VideoHit.user_id hit) ∧
   isNaN (VideoHit.user_id hit) = false) ∧
  match VideoHit.likes hit with
  | Some n => getProp rawHit (js "likes") = VNumber n ∧ isNaN n = false
  | None => getProp rawHit (js "likes") = VUndefined
  end ∧
  match VideoHit.downloads hit with
  | Some n => getProp rawHit (js "downloads") = VNumber n ∧ isNaN n = false
  | None => getProp rawHit (js "downloads") = VUndefined
  end.
Proof.
  intros Hs. unfold pixabayVideoHitSchema in Hs.
  destruct rawHit as [| | | | | |props]; try done.
  bind_cases Hs. injection Hs as <-.
  cbn [VideoHit.id VideoHit.pageURL VideoHit.tags VideoHit.duration
       VideoHit.type VideoHit.videos VideoHit.user VideoHit.user_id
       VideoHit.likes VideoHit.downloads].
  repeat match goal with
         | E : z_number _ = Some _ |- _ => apply z_number_Some in E as [? ?]
         | E : z_url _ = Some _ |- _ => apply z_url_Some in E as [? ?]
         | E : z_string _ = Some _ |- _ => apply z_string_Some in E
         | E : z_duration _ = Some _ |- _ => apply z_duration_Some in E as [? ?]
         | E : z_optional z_number _ = Some _ |- _ =>
             apply z_optional_number_Some in E
         end.
  by split_and!.
Qed.

(** ** The errors of a search *)








(** ** The results of a search *)

Lemma toImageResult_imageOf `{Host} (hit : PixabayImageHit)
    (image : ImageResult) :
  toImageResult hit = Return image → imageOf hit image.
Proof.
  unfold toImageResult, buildContributorProfile.
  destruct (encodeURIComponent (ImageHit.user hit)) as [encoded|] eqn:Henc;
    [|done].
  cbn [mbind completion_bind mret completion_ret]. intros [= <-].
  unfold imageOf, profilePage.
  cbn [Image.id Image.pageUrl Image.previewUrl Image.imageUrl
       Image.imageWidth Image.imageHeight Image.tags Image.photographer
       Image.likes Image.downloads name profileUrl].
  split_and!; try done. by exists encoded.
Qed.

Lemma toVideoResult_videoOf `{Host} (hit : PixabayVideoHit)
    (video : VideoResult) :
  toVideoResult hit = Return (Some video) → videoOf hit video.
Proof.
  unfold toVideoResult.
  pose proof (pickVideoRendition_httpUrl hit) as Hurl.
  destruct (pickVideoRendition hit) as [r|] eqn:Hpick; [|done].
  specialize (Hurl r eq_refl).
  rewrite sanitizeUrl_httpUrl, trimmedHttpUrl_unfold, Hurl.
  unfold httpUrl in Hurl. apply andb_true_iff in Hurl as [-> _].
  unfold buildContributorProfile.
  destruct (encodeURIComponent (VideoHit.user hit)) as [encoded|] eqn:Henc;
    [|done].
  cbn [mbind completion_bind mret completion_ret]. intros [= <-].
  exists r. unfold profilePage.
  cbn [Video.id Video.pageUrl Video.videoUrl Video.previewImageUrl
       Video.width Video.height Video.durationSeconds Video.tags
       Video.creator Video.likes Video.downloads name profileUrl].
  split_and!; try done. by exists encoded.
Qed.

Lemma toVideoResult_None `{Host} (hit : PixabayVideoHit) :
  toVideoResult hit = Return None → pickVideoRendition hit = None.
Proof.
  intros Hhit%toVideoResult_Return.
  destruct (pickVideoRendition hit); [|done]. by destruct Hhit as (? & ? & _).
Qed.

(** When no user name stands in the way, the mapping of the parsed hits
    returns. *)
Lemma encodable_users `{Host} {A} (schema : value number → option A)
    (user : A → jsstring) (body : value number) :
  (∀ rawHit hit,
     schema rawHit = Some hit → getProp rawHit (js "user") = VString (user hit)) →
  ¬ unencodableUser body →
  Forall (λ hit, is_Some (encodeURIComponent (user hit)))
         (omap schema (hitsOf (getProp body (js "hits")))).
Proof.
  intros Hfield Husers. apply Forall_forall. intros hit Hin.
  apply list_elem_of_omap in Hin as (rawHit & Hraw & Hparsed).
  destruct (encodeURIComponent (user hit)) eqn:Henc; [by eexists|].
  destruct Husers. exists rawHit, (user hit). eauto.
Qed.

(** X9: an image search on a successful response whose body is JSON
    other than [null], and in which no hit has a user name that cannot
    be encoded, returns. Its results are made, in order, from the hits
    that pass validation, field by field; there is one result less than
    there are hits for each hit that fails validation (none at all when
    [hits] is not an array), and the rate limit is that of the
    response. *)
Theorem image_search_results `{Host} (response : Response)
    (body : value number) :
  ok response = true → json response = Some body → nullish body = false →
  ¬ unencodableUser body →
  ∃ result,
    searchImages response = Return result ∧
    let hits := hitsOf (getProp body (js "hits")) in
    Forall2 imageOf (omap pixabayImageHitSchema hits)
            (ImageSearch.results result) ∧
    (length (ImageSearch.results result)
     + length (filter (λ rawHit, pixabayImageHitSchema rawHit = None) hits)
     = length hits)%nat ∧
    ((∀ hits, getProp body (js "hits") ≠ VArray hits) →
     ImageSearch.results result = []) ∧
    ImageSearch.rateLimit result = rateLimitHeaders response.
Proof.
  intros Hok Hbody Hnull Husers.
  assert (Forall (λ hit, is_Some (encodeURIComponent (ImageHit.user hit)))
            (omap pixabayImageHitSchema (hitsOf (getProp body (js "hits")))))
    as Hencodable.
  { apply encodable_users; [|done]. intros rawHit hit Hparsed.
    by apply pixabayImageHitSchema_Some in Hparsed
      as (_ & _ & _ & _ & _ & _ & _ & Hname & _). }
  destruct (searchImages_returns response body Hok Hbody Hnull Hencodable)
    as [result Hresult].
  exists result. split; [done|].
  destruct (searchImages_Return _ _ Hresult)
    as (body' & Hbody' & Hresults & Hlength & _).
  rewrite Hbody in Hbody'. injection Hbody' as <-. cbv zeta in *.
  split_and!.
  - eapply Forall2_impl; [exact Hresults|]. apply toImageResult_imageOf.
  - done.
  - intros Hnone. apply Forall2_length in Hresults.
    destruct (getProp body (js "hits")) as [| | | | |hits|];
      try (destruct (ImageSearch.results result); [done|discriminate]).
    by destruct (Hnone hits).
  - revert Hresult. unfold searchImages, readProp.
    rewrite Hok, Hbody, Hnull. simpl.
    destruct (mapM toImageResult _); simpl; [|done]. by intros [= <-].
Qed.

Lemma image_search_results_witness :
  ∃ result,
    searchImages (H:=exampleHost) (okResponse twoBadHits) = Return result ∧
    ImageSearch.results result = [].
Proof.
  destruct (@image_search_results exampleHost (okResponse twoBadHits)
              twoBadHits eq_refl eq_refl eq_refl)
    as (result & Hresult & Hresults & _).
  - intros (rawHit & user & Hin & Huser & _).
    apply list_elem_of_In in Hin. simpl in Hin.
    destruct Hin as [<-|[<-|[]]]; discriminate Huser.
  - exists result. split; [done|].
    by apply Forall2_nil_inv_l in Hresults.
Defined.

Lemma videoResults_videoOf `{Host} (parsedHits : list PixabayVideoHit)
    (outs : list (option VideoResult)) :
  Forall2 (λ hit out, toVideoResult hit = Return out) parsedHits outs →
  Forall2 videoOf
          (filter (λ hit, is_Some (pickVideoRendition hit)) parsedHits)
          (omap id outs).
Proof.
  induction 1 as [|hit out hits outs Hhit _ IH]; [constructor|].
  rewrite filter_cons. destruct out as [video|]; simpl.
  - apply toVideoResult_videoOf in Hhit.
    destruct Hhit as (r & Hpick & Hvideo).
    rewrite decide_True by (by rewrite Hpick).
    constructor; [|done]. by exists r.
  - apply toVideoResult_None in Hhit.
    rewrite decide_False; [done|]. rewrite Hhit. by intros [? ?].
Qed.

Lemma mapM_returns {A B} (f : A → completion B) (l : list A) :
  Forall (λ x, ∃ y, f x = Return y) l → ∃ k, mapM f l = Return k.
Proof.
  induction 1 as [|x l [y Hx] _ [k IH]]; [by eexists|].
  rewrite mapM_cons, Hx, IH. by eexists.
Qed.

Lemma toVideoResult_returns `{Host} (hit : PixabayVideoHit) :
  is_Some (encodeURIComponent (VideoHit.user hit)) →
  ∃ out, toVideoResult hit = Return out.
Proof.
  intros [encoded Henc]. unfold toVideoResult, buildContributorProfile.
  rewrite Henc. repeat case_match; by eexists.
Qed.

(** X10: a video search on a successful response whose body is JSON
    other than [null], and in which no hit has a user name that cannot
    be encoded, returns. Its results are made, in order and field by
    field, from the hits that pass validation and have a rendition the
    selection accepts; the hits without one are left out, and the rate
    limit is that of the response. *)
Theorem video_search_results `{Host} (response : Response)
    (body : value number) :
  ok response = true → json response = Some body → nullish body = false →
  ¬ unencodableUser body →
  ∃ result,
    searchVideos response = Return result ∧
    Forall2 videoOf
            (filter (λ hit, is_Some (pickVideoRendition hit))
                    (omap pixabayVideoHitSchema
                          (hitsOf (getProp body (js "hits")))))
            (VideoSearch.results result) ∧
    VideoSearch.rateLimit result = rateLimitHeaders response.
Proof.
  intros Hok Hbody Hnull Husers.
  assert (Forall (λ hit, is_Some (encodeURIComponent (VideoHit.user hit)))
            (omap pixabayVideoHitSchema (hitsOf (getProp body (js "hits")))))
    as Hencodable.
  { apply encodable_users; [|done]. intros rawHit hit Hparsed.
    by apply pixabayVideoHitSchema_Some in Hparsed
      as (_ & _ & _ & _ & _ & _ & Hname & _). }
  eapply Forall_impl in Hencodable; [|apply toVideoResult_returns].
  apply mapM_returns in Hencodable as [outs Houts].
  unfold searchVideos, readProp. rewrite Hok, Hbody, Hnull.
  cbn [negb fmap completion_fmap mbind completion_bind].
  rewrite parseHits_omap, videoResults_mapM, Houts.
  cbn [mbind completion_bind mret completion_ret app].
  eexists. split; [done|].
  cbn [VideoSearch.results VideoSearch.rateLimit]. split; [|done].
  apply videoResults_videoOf. by apply mapM_Return.
Qed.

Lemma video_search_results_witness :
  ∃ result,
    searchVideos (H:=exampleHost) (okResponse threeVideoHits) = Return result ∧
    length (VideoSearch.results result) = 1%nat.
Proof.
  destruct (@video_search_results exampleHost (okResponse threeVideoHits)
              threeVideoHits eq_refl eq_refl eq_refl)
    as (result & Hresult & Hresults & _).
  - intros (rawHit & user & Hin & Huser & Henc).
    apply list_elem_of_In in Hin. simpl in Hin.
    destruct Hin as [<-|[<-|[<-|[]]]]; vm_compute in Huser;
      injection Huser as <-; discriminate Henc.
  - exists result. split; [done|].
    apply Forall2_length in Hresults. rewrite <- Hresults.
    by vm_compute.
Defined.

(** ** The invariants of the results *)

Lemma profilePage_shape `{Host} (encoded : jsstring) (userId : number) :
  ∃ rest,
    profilePage encoded userId
    = js "https://pixabay.com/users/" ++ rest ++ js "/".
Proof.
  exists (encoded ++ js "-" ++ numberToString userId). unfold profilePage.
  generalize (js "https://pixabay.com/users/"), (js "-"), (js "/").
  intros prefix hyphen slash. by rewrite <- !(assoc_L (++)).
Qed.

Lemma findThumbnail_webUrl (hit : PixabayVideoHit)
    (preferred : option jsstring) (u : jsstring) :
  findThumbnail hit preferred = Some u → webUrl u.
Proof.
  rewrite findThumbnail_first.
  assert (∀ s, trimmedHttpUrl s = Some u → webUrl u) as Hweb.
  { intros s (Htrim & Hscheme & Htruthy & _)%trimmedHttpUrl_Some.
    split_and!; [|done..]. by destruct u. }
  destruct (trimmedHttpUrl preferred) as [own|] eqn:Hown.
  - intros [= <-]. by eapply Hweb.
  - unfold firstOf. intros [l Hl]%head_Some.
    assert (u ∈ omap (λ key, rendition (VideoHit.videos hit) key
                              ≫= λ r, trimmedHttpUrl (thumbnail r))
                     [medium; small; large; tiny]) as Hin
      by (rewrite Hl; left).
    apply list_elem_of_omap in Hin as (key & _ & Hin).
    destruct (rendition _ key) as [r|]; [|done]. by eapply Hweb.
Qed.

(** X11: every image an image search returns has an id, a size and
    counts that are numbers (not NaN), a page URL, a preview URL and an
    image URL that passed the URL check of the schema, clean tags, and a
    photographer profile under https://pixabay.com/users/. *)
Theorem image_results_well_formed `{Host} (response : Response)
    (result : PixabayImageSearchResult) :
  searchImages response = Return result →
  Forall wellFormedImage (ImageSearch.results result).
Proof.
  intros (body & _ & Hresults & _)%searchImages_Return. cbv zeta in Hresults.
  eapply Forall2_Forall_r; [exact Hresults|].
  apply Forall_forall. intros hit Hin image Himage.
  apply list_elem_of_omap in Hin as (rawHit & _ & Hparsed).
  apply pixabayImageHitSchema_Some in Hparsed
    as ((_ & Hid) & (_ & Hpage) & (_ & Hpreview) & (_ & Hweb) & (_ & Hw)
        & (_ & Hh) & _ & _ & _ & (_ & Hlikes) & (_ & Hdownloads)).
  unfold wellFormedImage.
  apply toImageResult_imageOf in Himage
    as (-> & -> & -> & -> & -> & -> & -> & _ & (encoded & _ & ->) & -> & ->).
  split_and!; try done.
  - apply normalizeTags_cleanTag.
  - apply profilePage_shape.
Qed.

(** X12: every video a video search returns has an id that is a number,
    a page URL that passed the URL check of the schema, a preview image
    that, when there is one, is a trimmed non-empty http(s) URL, a width
    and a height that are finite when they are given, a duration that is
    a non-negative integer, clean tags, a creator profile under
    https://pixabay.com/users/, and counts that are numbers when they
    are given. *)
Theorem video_results_well_formed `{Host} (response : Response)
    (result : PixabayVideoSearchResult) :
  searchVideos response = Return result →
  Forall wellFormedVideo (VideoSearch.results result).
Proof.
  intros (body & _ & Hresults & _)%searchVideos_Return.
  rewrite videoResults_mapM in Hresults.
  destruct (mapM toVideoResult _) as [outs|e] eqn:Houts; [|done].
  simpl in Hresults. injection Hresults as <-.
  apply mapM_Return, videoResults_videoOf in Houts.
  eapply Forall2_Forall_r; [exact Houts|].
  apply Forall_forall. intros hit [_ Hin]%list_elem_of_filter video Hvideo.
  apply list_elem_of_omap in Hin as (rawHit & _ & Hparsed).
  apply pixabayVideoHitSchema_Some in Hparsed
    as ((_ & Hid) & (_ & Hpage) & _ & (_ & Hduration) & _ & _ & _ & _
        & Hlikes & Hdownloads).
  unfold wellFormedVideo.
  destruct Hvideo
    as (r & _ & -> & -> & _ & -> & -> & -> & -> & -> & _ & (encoded & _ & ->)
        & -> & ->).
  split_and!; try done.
  - intros u. apply findThumbnail_webUrl.
  - intros w. by destruct (width r); intros [= <-].
  - intros h. by destruct (height r); intros [= <-].
  - apply normalizeTags_cleanTag.
  - apply profilePage_shape.
  - intros n Hn. rewrite Hn in Hlikes. by destruct Hlikes.
  - intros n Hn. rewrite Hn in Hdownloads. by destruct Hdownloads.
Qed.

Lemma image_results_well_formed_witness :
  ∃ result,
    searchImages (H:=exampleHost) (okResponse oneValidOfTwo) = Return result ∧
    length (ImageSearch.results result) = 1%nat ∧
    Forall (wellFormedImage (H:=exampleHost)) (ImageSearch.results result).
Proof.
  eexists. split; [reflexivity|]. split; [reflexivity|].
  apply (@image_results_well_formed exampleHost (okResponse oneValidOfTwo)).
  reflexivity.
Defined.

Lemma video_results_well_formed_witness :
  ∃ result,
    searchVideos (H:=exampleHost) (okResponse threeVideoHits) = Return result ∧
    length (VideoSearch.results result) = 1%nat ∧
    Forall (wellFormedVideo (H:=exampleHost)) (VideoSearch.results result).
Proof.
  eexists. split; [reflexivity|]. split; [reflexivity|].
  apply (@video_results_well_formed exampleHost (okResponse threeVideoHits)).
  reflexivity.
Defined.

(** ** The summary of the media tools *)

(** X13: the summary the media tools build from the structured content
    of a search. With [i] images and [v] videos for the query [q] it is
    [No Pixabay media found for "q". Try a different description or add
    more detail.] when both are zero, [Found i image(s) on Pixabay for
    "q".] or [Found v video(s) on Pixabay for "q".] when one of them is
    zero, and [Found i image(s) and v video(s) on Pixabay for "q".]
    otherwise, each noun in the singular exactly when its count is 1. A
    tool that passes no video result counts no video, and a tool that
    passes no image result counts no image. *)
Theorem media_summary (input : SearchImagesInput)
    (imageResult : option PixabayImageSearchResult)
    (videoResult : option PixabayVideoSearchResult) :
  let content := Media.toStructuredContent input imageResult videoResult in
  let i := Media.imageCount content in
  let v := Media.videoCount content in
  let found (what : jsstring) :=
    js "Found " ++ what ++ js " on Pixabay for " ++ [dquote] ++ query input
    ++ [dquote] ++ js "." in
  let images := decimal i ++ js " image" ++ pluralS i in
  let videos := decimal v ++ js " video" ++ pluralS v in
  i = from_option (λ r, length (ImageSearch.results r)) 0%nat imageResult ∧
  v = from_option (λ r, length (VideoSearch.results r)) 0%nat videoResult ∧
  Media.buildSummary content
  = match i, v with
    | O, O =>
        js "No Pixabay media found for " ++ [dquote] ++ query input
        ++ [dquote] ++ js ". Try a different description or add more detail."
    | S _, O => found images
    | O, S _ => found videos
    | S _, S _ => found (images ++ js " and " ++ videos)
    end.
Proof.
  destruct input as [q o s p]. intros content i v found images videos.
  split_and!; [by destruct imageResult|by destruct videoResult|].
  unfold Media.buildSummary. fold i v. subst found images videos.
  cbn [Media.query content Media.toStructuredContent query].
  unfold pluralS.
  generalize (js " image"), (js " video"), (js "Found "), (js " and "),
    (js " on Pixabay for "), (js "s"), (js "."), (js ", "), (js ",").
  intros image video foundWord andWord onWord s' dot sep comma.
  by destruct i as [|i'], v as [|v'].
Qed.

Lemma media_summary_witness :
  Media.buildSummary
    (Media.toStructuredContent
       {| query := js "sea"; orientation := None; safesearch := None;
          per_page := None |}
       None
       (Some {| VideoSearch.results := [sampleVideo 1];
                VideoSearch.totalHits := VUndefined;
                VideoSearch.rateLimit := noRateLimit |}))
  = jsq "Found 1 video on Pixabay for 'sea'.".
Proof.
  destruct (media_summary
              {| query := js "sea"; orientation := None; safesearch := None;
                 per_page := None |}
              None
              (Some {| VideoSearch.results := [sampleVideo 1];
                       VideoSearch.totalHits := VUndefined;
                       VideoSearch.rateLimit := noRateLimit |}))
    as (_ & _ & ->).
  reflexivity.
Defined.
